(** * WikiBacon path finder: a shallow embedding of [wiki.py]

    The development follows [src/engineering-assessment/wiki.py]:

    - Python [str] values are Rocq [string]s.  A character stands for a code
      point in U+0000..U+00FF; [lower] and [split] agree with Python's
      [str.lower] and [str.split] on that range.
    - The three cache tiers, the thread's database connection and the calls
      made to the outside are one explicit [State], threaded through every
      function that touches them.
    - Everything the program cannot control (the clock, SQLite, the Wikipedia
      API, the iteration order of a Python set) is a [World]: a family of
      answers indexed by the number of outside calls made so far, so that two
      calls at different moments may be answered differently.
    - [raise] is the constructor [Raise] of [Exc]; the [try]/[except] blocks of
      the source are the matches on it. *)

From Stdlib Require Import String Ascii List ZArith Lia Bool Arith PeanoNat.
From Stdlib Require Import Permutation Sorted.
Import ListNotations.

Local Open Scope string_scope.
Local Open Scope list_scope.
Local Open Scope nat_scope.

(* ------------------------------------------------------------------ *)
(** ** Python strings *)

Module PyStr.

(** [str.lower] on one code point below U+0100: [A-Z] and the Latin-1
    capitals (U+00C0..U+00DE but the multiplication sign U+00D7) move 32 up.
    On that range it gives one code point for one; above it [str.lower] can
    lengthen a string (U+0130 becomes two code points), so nothing below
    relies on [lower] keeping the length. *)
Definition lower_char (c : ascii) : ascii :=
  let n := nat_of_ascii c in
  if ((65 <=? n) && (n <=? 90))
     || ((192 <=? n) && (n <=? 222) && negb (n =? 215))
  then ascii_of_nat (n + 32)
  else c.

Fixpoint lower (s : string) : string :=
  match s with
  | EmptyString => EmptyString
  | String c r => String (lower_char c) (lower r)
  end.

(** [s.startswith(p)] *)
Fixpoint startswith (p s : string) : bool :=
  match p, s with
  | EmptyString, _ => true
  | String a p', String b s' => Ascii.eqb a b && startswith p' s'
  | String _ _, EmptyString => false
  end.

(** [term in s] for two strings: [term] occurs as a substring of [s]. *)
Fixpoint contains (term s : string) : bool :=
  startswith term s
  || match s with
     | EmptyString => false
     | String _ r => contains term r
     end.

(** [s.replace(a, b)] for one-character [a] and [b]. *)
Fixpoint replace_char (a b : ascii) (s : string) : string :=
  match s with
  | EmptyString => EmptyString
  | String c r => String (if Ascii.eqb c a then b else c) (replace_char a b r)
  end.

(** [str.isspace] on one code point below U+0100. *)
Definition is_space (c : ascii) : bool :=
  let n := nat_of_ascii c in
  ((9 <=? n) && (n <=? 13)) || ((28 <=? n) && (n <=? 32))
  || (n =? 133) || (n =? 160).

(** [s.split()]: the maximal runs of characters that are not white space.
    [cur] holds the run being read. *)
Fixpoint split_from (cur : string) (s : string) : list string :=
  match s with
  | EmptyString =>
      match cur with EmptyString => [] | _ => [cur] end
  | String c r =>
      if is_space c
      then match cur with
           | EmptyString => split_from EmptyString r
           | _ => cur :: split_from EmptyString r
           end
      else split_from (cur ++ String c EmptyString)%string r
  end.

Definition split (s : string) : list string := split_from EmptyString s.

(** truthiness of a string: [not s] holds of the empty string only. *)
Definition is_empty (s : string) : bool :=
  match s with EmptyString => true | _ => false end.

(** [x in l] for a list (or set) of strings. *)
Definition mem (x : string) (l : list string) : bool :=
  existsb (String.eqb x) l.

End PyStr.

(* ------------------------------------------------------------------ *)
(** ** PageFilter: [is_regular_page] *)

Definition meta_blacklist : list string :=
  [ "disambiguation"; "stub"; "wikidata"; "use dmy dates"; "use mdy dates";
    "articles with"; "short description"; "identifier"; "automatic"; "cs1";
    "wikipedia"; "category:"; "file:"; "template:"; "help:"; "user:";
    "talk:"; "portal:"; "book:"; "draft:"; "all articles"; "pages with";
    "coordinates on wikidata"; "webarchive template"; "citation" ].

Definition is_regular_page (page_name : string) : bool :=
  if PyStr.is_empty page_name then false
  else
    let page_name_lower := PyStr.lower page_name in
    if existsb (fun term => PyStr.contains term page_name_lower) meta_blacklist
    then false
    else if PyStr.startswith "list of" page_name_lower
            || PyStr.startswith "index of" page_name_lower
    then false
    else if 150 <? String.length page_name then false
    else true.

(* ------------------------------------------------------------------ *)
(** ** Exceptions, the outside world and the program state *)

(** The outcome of a call that may [raise]. *)
Inductive Exc (A : Type) : Type :=
| Ok (a : A)
| Raise.
Arguments Ok {A} a.
Arguments Raise {A}.

(** A [wikipedia.WikipediaPage].  [links] and [categories] are properties the
    library loads over the network when they are read, so reading one may
    raise; the model gives each page the answer of its properties. *)
Record WikipediaPage : Type := {
  title : string;
  links : Exc (list string);
  categories : Exc (list string)
}.

(** [wikipedia.page(name, auto_suggest=False, redirect=False)] *)
Inductive PageReply : Type :=
| PageFound (p : WikipediaPage)
| DisambiguationError
| PageError
| OtherError.

(** [sqlite3.connect] followed by the two [CREATE ... IF NOT EXISTS] and the
    commit of [get_db_connection]: everything works, the connection cannot be
    opened, or it is opened and stored but the set-up statements raise. *)
Inductive ConnectReply : Type :=
| Connected
| ConnectFailed
| SetupFailed.

(** What the outside answers to the [n]-th call made to it. *)
Record World : Type := {
  (** [time.time()], in ticks of the clock *)
  time_time : nat -> Z;
  sqlite_connect : nat -> ConnectReply;
  (** whether the [SELECT] and the [json.loads] of its row go through *)
  select_ok : nat -> bool;
  (** whether the [INSERT OR REPLACE] and its commit go through *)
  insert_ok : nat -> bool;
  wikipedia_page : nat -> string -> PageReply;
  wikipedia_search : nat -> string -> Exc (list string);
  (** [list(s)] for a set [s] built from the given elements: the order in
      which Python iterates over the set (it depends on string hashes) *)
  set_order : list string -> list string
}.

(** The state of the process.
    - [memory_cache]: the dict [get_page_links_with_cache.memory_cache], in
      insertion order (the attribute is created empty on first use);
    - [conn]: whether [thread_local.conn] is set;
    - [pages]: the rows of table [pages] of [pages.db], name to decoded links;
    - [calls]: how many calls to the outside have been made. *)
Record State : Type := {
  memory_cache : list (string * list string);
  conn : bool;
  pages : list (string * list string);
  calls : nat
}.

Definition set_memory_cache (m : list (string * list string)) (s : State) : State :=
  {| memory_cache := m; conn := conn s; pages := pages s; calls := calls s |}.

Definition set_conn (c : bool) (s : State) : State :=
  {| memory_cache := memory_cache s; conn := c; pages := pages s; calls := calls s |}.

Definition set_pages (p : list (string * list string)) (s : State) : State :=
  {| memory_cache := memory_cache s; conn := conn s; pages := p; calls := calls s |}.

Definition tick (s : State) : State :=
  {| memory_cache := memory_cache s; conn := conn s; pages := pages s;
     calls := S (calls s) |}.

(** A fresh process attached to a database holding [rows]. *)
Definition fresh (rows : list (string * list string)) : State :=
  {| memory_cache := []; conn := false; pages := rows; calls := 0 |}.

(** Stateful computations. *)
Definition M (A : Type) : Type := State -> A * State.

Definition ret {A : Type} (a : A) : M A := fun s => (a, s).

Definition bind {A B : Type} (m : M A) (k : A -> M B) : M B :=
  fun s => let (a, s') := m s in k a s'.

Declare Scope m_scope.
Delimit Scope m_scope with M.
Notation "x <- m ;; k" := (bind m (fun x => k))
  (at level 61, m at next level, right associativity) : m_scope.
Notation "m ;;; k" := (bind m (fun _ => k))
  (at level 61, right associativity) : m_scope.
Local Open Scope m_scope.

(** Python dicts keep their keys in insertion order; assigning to a key that
    is present keeps its place. *)
Fixpoint dict_get {V : Type} (k : string) (d : list (string * V)) : option V :=
  match d with
  | [] => None
  | (k', v) :: d' => if String.eqb k k' then Some v else dict_get k d'
  end.

Fixpoint dict_set {V : Type} (k : string) (v : V) (d : list (string * V))
  : list (string * V) :=
  match d with
  | [] => [(k, v)]
  | (k', v') :: d' =>
      if String.eqb k k' then (k', v) :: d' else (k', v') :: dict_set k v d'
  end.

Section Program.

Variable w : World.

(** One call to the outside: read the answer for this moment, count it. *)
Definition ask {A : Type} (f : World -> nat -> A) : M A :=
  fun s => (f w (calls s), tick s).

(* ------------------------------------------------------------------ *)
(** ** [get_db_connection] *)

Definition get_db_connection : M (Exc unit) :=
  fun s =>
    if conn s then (Ok tt, s)
    else
      match sqlite_connect w (calls s) with
      | Connected => (Ok tt, set_conn true (tick s))
      | ConnectFailed => (Raise, tick s)
      | SetupFailed => (Raise, set_conn true (tick s))
      end.

(** [cursor.execute("SELECT links FROM pages WHERE name = ?")] with
    [fetchone] and [json.loads]. *)
Definition db_select (page_name : string) : M (Exc (option (list string))) :=
  fun s =>
    if select_ok w (calls s) then (Ok (dict_get page_name (pages s)), tick s)
    else (Raise, tick s).

(** [INSERT OR REPLACE INTO pages] inside its own [try]: a failure is
    swallowed and leaves the table as it was. *)
Definition db_insert (page_name : string) (raw : list string) : M unit :=
  fun s =>
    if insert_ok w (calls s)
    then (tt, set_pages (dict_set page_name raw (pages s)) (tick s))
    else (tt, tick s).

(* ------------------------------------------------------------------ *)
(** ** [get_page] *)

Definition python_page : string := "Python (programming language)".

Definition page_exact (name : string) : M PageReply :=
  ask (fun w n => wikipedia_page w n name).

(** The innermost [try: return wikipedia.page("Python ...") except: return None]. *)
Definition python_fallback : M (option WikipediaPage) :=
  r <- page_exact python_page ;;
  match r with
  | PageFound p => ret (Some p)
  | _ => ret None
  end.

Definition get_page (page_name : string) : M (option WikipediaPage) :=
  first <- page_exact page_name ;;
  match first with
  | PageFound p => ret (Some p)
  | _ =>
      found <- ask (fun w n => wikipedia_search w n page_name) ;;
      match found with
      | Ok (best :: _) =>
          r <- page_exact best ;;
          match r with
          | PageFound p => ret (Some p)
          | _ => python_fallback
          end
      | Ok [] =>
          r <- page_exact python_page ;;
          match r with
          | PageFound p => ret (Some p)
          | _ => python_fallback
          end
      | Raise => python_fallback
      end
  end.

(* ------------------------------------------------------------------ *)
(** ** LinkCache: [get_page_links_with_cache] *)

(** [page.links + page.categories], then [page.links], then [[]]. *)
Definition raw_links (page : WikipediaPage) : list string :=
  match links page with
  | Ok l =>
      match categories page with
      | Ok c => l ++ c
      | Raise => l
      end
  | Raise => []
  end.

(** The loop that builds [filtered]. *)
Definition filter_links (page_name : string) (raw : list string) : list string :=
  filter (fun link =>
            negb (PyStr.is_empty link) && is_regular_page link
            && negb (String.eqb link page_name))
         raw.

(** [memory_cache[page_name] = value] *)
Definition memory_put (page_name : string) (value : list string) : M unit :=
  fun s => (tt, set_memory_cache (dict_set page_name value (memory_cache s)) s).

(** The flush of the oldest half once the dict holds more than 1000 keys:
    [dict(items[500:])]. *)
Definition trim_oldest (m : list (string * list string))
  : list (string * list string) :=
  if 1000 <? List.length m then skipn 500 m else m.

Definition memory_trim : M unit :=
  fun s => (tt, set_memory_cache (trim_oldest (memory_cache s)) s).

(** From "Filter and clean links" to [return filtered]. *)
Definition filter_and_store (page_name : string) (raw : list string)
  : M (Exc (list string)) :=
  let filtered := filter_links page_name raw in
  memory_trim ;;;
  memory_put page_name filtered ;;;
  ret (Ok filtered).

(** The outer [try] block with its [except Exception] handler: the durable
    tier, then Wikipedia. *)
Definition fetch_links (page_name : string) : M (Exc (list string)) :=
  cached_page <- db_select page_name ;;
  match cached_page with
  | Raise => memory_put page_name [] ;;; ret (Ok [])
  | Ok (Some raw) => filter_and_store page_name raw
  | Ok None =>
      page <- get_page page_name ;;
      match page with
      | None => memory_put page_name [] ;;; ret (Ok [])
      | Some page =>
          let raw := raw_links page in
          db_insert page_name raw ;;;
          filter_and_store page_name raw
      end
  end.

Definition get_page_links_with_cache (page_name : string) : M (Exc (list string)) :=
  fun s =>
    if PyStr.is_empty page_name then (Ok [], s)
    else
      match dict_get page_name (memory_cache s) with
      | Some cached => (Ok cached, s)
      | None =>
          (c <- get_db_connection ;;
           match c with
           | Raise => ret Raise
           | Ok _ => fetch_links page_name
           end) s
      end.

(* ------------------------------------------------------------------ *)
(** ** PathValidator: [verify_path_exists] *)

(** The [for i in range(len(path) - 1)] loop. *)
Fixpoint verify_pairs (path : list string) : M bool :=
  match path with
  | current_page :: ((next_page :: _) as rest) =>
      r <- get_page_links_with_cache current_page ;;
      match r with
      | Ok links =>
          if PyStr.mem next_page links then verify_pairs rest else ret false
      | Raise => ret false
      end
  | _ => ret true
  end.

Definition verify_path_exists (path : list string) : M bool :=
  if List.length path <? 2 then ret true else verify_pairs path.

(* ------------------------------------------------------------------ *)
(** ** DirectConnectionFinder: [find_direct_connection] *)

(** [for neighbor in common_neighbors[:3]] *)
Fixpoint first_valid_neighbor (start_title end_title : string)
    (common_neighbors : list string) : M (option (list string)) :=
  match common_neighbors with
  | [] => ret None
  | neighbor :: rest =>
      ok <- verify_path_exists [start_title; neighbor; end_title] ;;
      if ok then ret (Some [start_title; neighbor; end_title])
      else first_valid_neighbor start_title end_title rest
  end.

Definition find_direct_connection (start_title end_title : string)
  : M (option (list string)) :=
  if String.eqb start_title end_title then ret (Some [start_title])
  else
    r1 <- get_page_links_with_cache start_title ;;
    match r1 with
    | Raise => ret None
    | Ok start_links =>
        if PyStr.mem end_title start_links
        then ret (Some [start_title; end_title])
        else
          r2 <- get_page_links_with_cache end_title ;;
          match r2 with
          | Raise => ret None
          | Ok end_links_set =>
              let common_neighbors :=
                filter (fun link => PyStr.mem link end_links_set) start_links in
              first_valid_neighbor start_title end_title
                                   (firstn 3 common_neighbors)
          end
    end.

(* ------------------------------------------------------------------ *)
(** ** HeuristicBoundedSearch: [find_path_bfs] *)

(** [set(t.lower().replace('_', ' ').split())], kept without duplicates. *)
Definition word_set (t : string) : list string :=
  nodup string_dec (PyStr.split (PyStr.replace_char "_" " " (PyStr.lower t))).

(** The score given to [neighbor]: words shared with the target, plus one
    when [neighbor.split()] has at most four items. *)
Definition relevance (end_words : list string) (neighbor : string) : nat :=
  let neighbor_words := word_set neighbor in
  let score :=
    List.length (filter (fun x => PyStr.mem x end_words) neighbor_words) in
  if List.length (PyStr.split neighbor) <=? 4 then score + 1 else score.

(** Order of the keys [(-score, len(name))]: [key a <= key b]. *)
Definition key_le (a b : string * nat) : bool :=
  (snd b <? snd a)
  || ((snd a =? snd b) && (String.length (fst a) <=? String.length (fst b))).

(** [list.sort(key=...)] is stable; so is insertion from the right. *)
Fixpoint insert_by_key (x : string * nat) (l : list (string * nat))
  : list (string * nat) :=
  match l with
  | [] => [x]
  | y :: l' => if key_le x y then x :: y :: l' else y :: insert_by_key x l'
  end.

Fixpoint sort_by_key (l : list (string * nat)) : list (string * nat) :=
  match l with
  | [] => []
  | x :: l' => insert_by_key x (sort_by_key l')
  end.

(** The local variables of the [while] loop.  [dequeued] is a ghost: the
    titles popped so far, oldest first; the source keeps only their count. *)
Record Frontier : Type := {
  queue : list (string * list string);
  visited : list string;
  nodes_processed : nat;
  dequeued : list string
}.

(** How the [for neighbor in neighbors] loop ends: with [return final_path],
    or with the list [scored_neighbors]. *)
Inductive Scan : Type :=
| Found (final_path : list string)
| Scored (scored_neighbors : list (string * nat)).

Fixpoint score_neighbors (end_title : string) (end_words visited : list string)
    (path neighbors : list string) (scored_neighbors : list (string * nat))
  : M Scan :=
  match neighbors with
  | [] => ret (Scored scored_neighbors)
  | neighbor :: rest =>
      let final_path := path ++ [neighbor] in
      hit <- (if String.eqb neighbor end_title
              then verify_path_exists final_path else ret false) ;;
      if hit then ret (Found final_path)
      else
        score_neighbors end_title end_words visited path rest
          (if negb (PyStr.mem neighbor visited)
              && (String.length neighbor <? 100)
           then scored_neighbors ++ [(neighbor, relevance end_words neighbor)]
           else scored_neighbors)
  end.

(** [for neighbor in top_neighbors]: mark and append the ones not yet seen. *)
Fixpoint enqueue (path top_neighbors visited : list string)
    (queue : list (string * list string))
  : list string * list (string * list string) :=
  match top_neighbors with
  | [] => (visited, queue)
  | neighbor :: rest =>
      if PyStr.mem neighbor visited then enqueue path rest visited queue
      else enqueue path rest (neighbor :: visited)
                   (queue ++ [(neighbor, path ++ [neighbor])])
  end.

(** The frontier once [queue.popleft()] has taken [current_title] and
    [nodes_processed += 1] has run. *)
Definition popped (f : Frontier) (current_title : string)
    (queue' : list (string * list string)) : Frontier :=
  {| queue := queue'; visited := visited f;
     nodes_processed := S (nodes_processed f);
     dequeued := dequeued f ++ [current_title] |}.

(** How one turn of the [while] body ends. *)
Inductive Outcome : Type :=
| Break (f : Frontier)
| Return (final_path : list string) (f : Frontier)
| Continue (f : Frontier).

Definition max_nodes : nat := 5000.

(** One turn of the body of [while queue and nodes_processed < max_nodes]. *)
Definition bfs_iteration (start_time : Z) (end_title : string)
    (end_words : list string) (max_depth timeout : Z) (f : Frontier)
  : M Outcome :=
  now <- ask time_time ;;
  if (timeout <? now - start_time)%Z then ret (Break f)
  else
    match queue f with
    | [] => ret (Break f) (* ruled out by the loop condition *)
    | (current_title, path) :: queue' =>
        let f1 := popped f current_title queue' in
        if (max_depth <=? Z.of_nat (List.length path))%Z
        then ret (Continue f1)
        else
          r <- get_page_links_with_cache current_title ;;
          match r with
          | Raise => ret (Continue f1)
          | Ok neighbors =>
              scan <- score_neighbors end_title end_words (visited f1)
                                      path neighbors [] ;;
              match scan with
              | Found final_path => ret (Return final_path f1)
              | Scored scored_neighbors =>
                  let top_neighbors :=
                    map fst (firstn 10 (sort_by_key scored_neighbors)) in
                  let (visited', queue'') :=
                    enqueue path top_neighbors (visited f1) (queue f1) in
                  ret (Continue
                         {| queue := queue''; visited := visited';
                            nodes_processed := nodes_processed f1;
                            dequeued := dequeued f1 |})
              end
          end
    end.

(** The [while] loop.  Each turn that goes on raises [nodes_processed], so
    [max_nodes] turns are enough ([bfs_while_fuel] below): [fuel] never runs
    out before the loop condition fails. *)
Fixpoint bfs_while (fuel : nat) (start_time : Z) (end_title : string)
    (end_words : list string) (max_depth timeout : Z) (f : Frontier)
  : M (option (list string) * Frontier) :=
  match fuel with
  | 0 => ret (None, f)
  | S fuel' =>
      match queue f with
      | [] => ret (None, f)
      | _ :: _ =>
          if nodes_processed f <? max_nodes then
            o <- bfs_iteration start_time end_title end_words
                               max_depth timeout f ;;
            match o with
            | Break f' => ret (None, f')
            | Return final_path f' => ret (Some final_path, f')
            | Continue f' =>
                bfs_while fuel' start_time end_title end_words
                          max_depth timeout f'
            end
          else ret (None, f)
      end
  end.

(** The frontier the search starts from. *)
Definition bfs_setup (start_title : string) : Frontier :=
  {| queue := [(start_title, [start_title])]; visited := [start_title];
     nodes_processed := 0; dequeued := [] |}.

(** [find_path_bfs] up to its last line, with the frontier the loop ended on. *)
Definition find_path_bfs_run (start_title end_title : string)
    (max_depth timeout : Z) : M (option (list string) * option Frontier) :=
  start_time <- ask time_time ;;
  direct_path <- find_direct_connection start_title end_title ;;
  match direct_path with
  | Some ((_ :: _) as p) => ret (Some p, None)
  | _ =>
      r <- bfs_while (S max_nodes) start_time end_title (word_set end_title)
                     max_depth timeout (bfs_setup start_title) ;;
      ret (fst r, Some (snd r))
  end.

Definition find_path_bfs (start_title end_title : string)
    (max_depth timeout : Z) : M (option (list string)) :=
  r <- find_path_bfs_run start_title end_title max_depth timeout ;;
  ret (fst r).

(* ------------------------------------------------------------------ *)
(** ** SearchOrchestrator: [find_short_path] *)

(** [for cat in list(common_cats)[:3]] *)
Fixpoint try_categories (start_title end_title : string) (cats : list string)
  : M (list string) :=
  match cats with
  | [] => ret []
  | cat :: rest =>
      ok <- verify_path_exists [start_title; cat; end_title] ;;
      if ok then ret [start_title; cat; end_title]
      else try_categories start_title end_title rest
  end.

(** [list(set(start_cats) & set(end_cats))] *)
Definition common_cats (start_cats end_cats : list string) : list string :=
  set_order w (filter (fun c => PyStr.mem c end_cats)
                      (nodup string_dec start_cats)).

(** The category fall-back of [find_short_path]; reading [categories] may
    raise, which the inner [try] turns into "no path". *)
Definition category_fallback (start_title end_title : string) : M (list string) :=
  start_page_obj <- get_page start_title ;;
  end_page_obj <- get_page end_title ;;
  match start_page_obj, end_page_obj with
  | Some sp, Some ep =>
      match categories sp with
      | Raise => ret []
      | Ok sc =>
          match categories ep with
          | Raise => ret []
          | Ok ec =>
              let start_cats := firstn 10 (filter is_regular_page sc) in
              let end_cats := firstn 10 (filter is_regular_page ec) in
              try_categories start_title end_title
                             (firstn 3 (common_cats start_cats end_cats))
          end
      end
  | _, _ => ret []
  end.

(** [start_page] and [end_page] are page objects or [None]. *)
Definition find_short_path (start_page end_page : option WikipediaPage)
    (timeout : Z) : M (list string) :=
  match start_page, end_page with
  | Some sp, Some ep =>
      let start_title := title sp in
      let end_title := title ep in
      if PyStr.is_empty start_title || PyStr.is_empty end_title then ret []
      else
        path <- find_path_bfs start_title end_title 6 timeout ;;
        match path with
        | Some ((_ :: _) as p) =>
            ok <- verify_path_exists p ;;
            if ok then ret p else category_fallback start_title end_title
        | _ => category_fallback start_title end_title
        end
  | _, _ => ret []
  end.

End Program.

(* ------------------------------------------------------------------ *)
(** ** Worlds to run the program in *)

Module Scenario.

(** A page object with the given links and categories. *)
Definition page (name : string) (l c : list string) : WikipediaPage :=
  {| title := name; links := Ok l; categories := Ok c |}.

(** A world that never fails: Wikipedia is the fixed table [g] of pages
    (title, links, categories), searches find nothing, SQLite works, a set is
    listed in the order its elements were given, and the clock reads
    [clock n] at the [n]-th call to the outside. *)
Definition graph_world (g : list (string * (list string * list string)))
    (clock : nat -> Z) : World :=
  {| time_time := clock;
     sqlite_connect := fun _ => Connected;
     select_ok := fun _ => true;
     insert_ok := fun _ => true;
     wikipedia_page := fun _ name =>
       match dict_get name g with
       | Some (l, c) => PageFound (page name l c)
       | None => PageError
       end;
     wikipedia_search := fun _ _ => Ok [];
     set_order := fun l => l |}.

(** A clock that moves one tick at every call to the outside. *)
Definition running_clock (n : nat) : Z := Z.of_nat n.

(** A clock that does not move between two readings. *)
Definition frozen_clock (n : nat) : Z := 0%Z.

(** A reaches C through B only. *)
Definition chain : list (string * (list string * list string)) :=
  [ ("A", (["B"], [])); ("B", (["C"], [])); ("C", ([], [])) ].

(** The page objects handed to [find_short_path]. *)
Definition page_A : option WikipediaPage := Some (page "A" ["B"] []).
Definition page_B : option WikipediaPage := Some (page "B" ["C"] []).
Definition page_C : option WikipediaPage := Some (page "C" [] []).

(** A page object without a title. *)
Definition untitled : option WikipediaPage := Some (page "" [] []).

(** A page with twelve links, for a search that aims at "Solar energy". *)
Definition hub_links : list string :=
  [ "Wind"; "Energy"; "Solar System"; "Coal"; "Solar energy in Spain";
    "Gas"; "Oil"; "Sun"; "Heat"; "Tide";
    "A very long title made of many small words"; "Solar_power" ].

Definition hub : list (string * (list string * list string)) :=
  [ ("Hub", (hub_links, [])) ].

(** A page filed under a category of its own name and under a maintenance
    category. *)
Definition physics : list (string * (list string * list string)) :=
  [ ("Physics", (["Energy"], ["Physics"; "Articles with short description"])) ].

Definition chain_world : World := graph_world chain running_clock.
Definition still_world : World := graph_world chain frozen_clock.
Definition hub_world : World := graph_world hub running_clock.
Definition physics_world : World := graph_world physics running_clock.

(** A and C both link to B, and B links to C. *)
Definition triangle : list (string * (list string * list string)) :=
  [ ("A", (["B"], [])); ("B", (["C"], [])); ("C", (["B"], [])) ].

Definition triangle_world : World := graph_world triangle running_clock.

End Scenario.

(* ------------------------------------------------------------------ *)
(** ** Vocabulary of the statements *)

(** What the lower tiers do for a name [t] that is not in the hot tier: they
    record that the fetch failed, or they filter a raw list and keep the
    result, having written the raw list to the table when it came from
    Wikipedia and the write went through. *)
Definition miss_outcome (w : World) (t : string) (s s' : State)
    (r : Exc (list string)) : Prop :=
  (r = Ok [] /\ memory_cache s' = dict_set t [] (memory_cache s)
   /\ pages s' = pages s)
  \/ (exists raw,
         r = Ok (filter_links t raw)
         /\ memory_cache s'
            = dict_set t (filter_links t raw) (trim_oldest (memory_cache s))
         /\ (pages s' = pages s
             \/ exists page s0 s1,
                 get_page w t s0 = (Some page, s1)
                 /\ raw = raw_links page
                 /\ pages s' = dict_set t raw (pages s))).

(** A list that holds neither the topic [t] itself nor a name that
    [is_regular_page] rejects. *)
Definition reference_list (t : string) (l : list string) : Prop :=
  forall x, In x l -> x <> t /\ is_regular_page x = true.

(** Every entry of the hot tier is such a list. *)
Definition hot_filtered (s : State) : Prop :=
  forall k v, In (k, v) (memory_cache s) -> reference_list k v.

(** The state in which [verify_path_exists] fetches the links of the [i]-th
    element of [path], when the pairs before it were found linked. *)
Fixpoint state_before (w : World) (path : list string) (i : nat) (s : State)
  : State :=
  match i, path with
  | S i', a :: rest =>
      state_before w rest i' (snd (get_page_links_with_cache w a s))
  | _, _ => s
  end.


(** The neighbours that the scoring loop keeps: not yet visited, and of fewer
    than 100 characters. *)
Definition candidate (visited : list string) (neighbor : string) : bool :=
  negb (PyStr.mem neighbor visited) && (String.length neighbor <? 100).


(** The names of [top_neighbors] that the last loop of the body appends to
    the queue: the first occurrence of each name that is not visited yet. *)
Fixpoint newly_seen (top_neighbors visited : list string) : list string :=
  match top_neighbors with
  | [] => []
  | n :: rest =>
      if PyStr.mem n visited then newly_seen rest visited
      else n :: newly_seen rest (n :: visited)
  end.

(** Every path waiting in the queue starts at [start_title]. *)
Definition paths_from (start_title : string) (f : Frontier) : Prop :=
  forall t path, In (t, path) (queue f) -> hd_error path = Some start_title.


(** The value of [top_neighbors] when the scoring loop ran to its end on
    [neighbors]: the first ten of the candidates, sorted by key. *)
Definition top_ten (end_words visited neighbors : list string) : list string :=
  map fst
      (firstn 10
         (sort_by_key
            (map (fun n => (n, relevance end_words n))
                 (filter (candidate visited) neighbors)))).

(** The frontier once [(current_title, path)] has been popped and the names
    [top] have gone through the last loop of the body. *)
Definition expanded (f : Frontier) (current_title : string)
    (path : list string) (queue' : list (string * list string))
    (top : list string) : Frontier :=
  {| queue := queue' ++ map (fun n => (n, path ++ [n]))
                            (newly_seen top (visited f));
     visited := rev (newly_seen top (visited f)) ++ visited f;
     nodes_processed := S (nodes_processed f);
     dequeued := dequeued f ++ [current_title] |}.


(** Every step of [path] is answered by the hot tier [m]: each element but
    the last has an entry there, and the entry holds the next element. *)
Fixpoint hot_linked (m : list (string * list string)) (path : list string)
  : Prop :=
  match path with
  | a :: ((b :: _) as rest) =>
      PyStr.is_empty a = false
      /\ (exists l, dict_get a m = Some l /\ In b l)
      /\ hot_linked m rest
  | _ => True
  end.


(** [n] calls to the outside, one after the other. *)
Definition ticks (n : nat) (s : State) : State := Nat.iter n tick s.

(** What a run may do to the durable tier and to the connection between a
    state [s0] and a later state [s]: rows are added, never changed or
    removed; a connection that is held stays held; calls are only counted
    up. *)
Definition rows_kept (s0 s : State) : Prop :=
  (forall k v, dict_get k (pages s0) = Some v -> dict_get k (pages s) = Some v)
  /\ (conn s0 = true -> conn s = true)
  /\ calls s0 <= calls s.

(** The hot tier agrees with the durable tier: where the table has a row for
    a name, the hot entry of that name is the filter of the row, or the
    empty list that records a failed fetch. *)
Definition tiers_agree (s : State) : Prop :=
  forall k v row,
    In (k, v) (memory_cache s) -> dict_get k (pages s) = Some row ->
    v = [] \/ v = filter_links k row.

(** Every step of [path] leads to another title, and to one that
    [is_regular_page] accepts. *)
Definition regular_hops (path : list string) : Prop :=
  forall i, S i < List.length path ->
    nth (S i) path "" <> nth i path ""
    /\ is_regular_page (nth (S i) path "") = true.


(** The titles a search has handled: those it has popped, then those that
    wait in the queue. *)
Definition frontier_titles (f : Frontier) : list string :=
  dequeued f ++ map fst (queue f).

(** No title was put in the queue twice; each handled title is marked in
    [visited]; each waiting item carries a path from the start to its own
    title. *)
Definition frontier_ok (start_title : string) (f : Frontier) : Prop :=
  NoDup (frontier_titles f)
  /\ (forall t, In t (frontier_titles f) -> In t (visited f))
  /\ (forall t path,
         In (t, path) (queue f) ->
         last path "" = t /\ hd_error path = Some start_title).

(** The lengths of the waiting paths, in queue order. *)
Definition queue_lengths (f : Frontier) : list nat :=
  map (fun item => List.length (snd item)) (queue f).

(** The queue holds its paths by rising length, and no path is more than one
    step longer than the first. *)
Definition layered (f : Frontier) : Prop :=
  StronglySorted le (queue_lengths f)
  /\ (forall n, In n (queue_lengths f) -> n <= S (hd 0 (queue_lengths f))).


(** [y] has the sort key of [x]: the same score and a title of the same
    length. *)
Definition same_key (x y : string * nat) : bool :=
  (snd y =? snd x) && (String.length (fst y) =? String.length (fst x)).


(* ------------------------------------------------------------------ *)
(** ** [get_page_links_cached]: the [lru_cache] around the cache *)

(** The state with the dict of [functools.lru_cache]: [lru] holds the cached
    results, the least recently used first; [inner] is the state of the
    function it wraps. *)
Record Cached : Type := {
  lru : list (string * list string);
  inner : State
}.

Definition lru_maxsize : nat := 2000.

(** [del d[k]] *)
Fixpoint dict_remove {V : Type} (k : string) (d : list (string * V))
  : list (string * V) :=
  match d with
  | [] => []
  | (k', v) :: d' =>
      if String.eqb k k' then d' else (k', v) :: dict_remove k d'
  end.

(** [get_page_links_cached]: a hit moves the entry to the recent end and
    returns it; a miss calls [get_page_links_with_cache], and stores the
    tuple of its result, in place of the least recently used entry once
    [maxsize] entries are held.  A call that raises stores nothing. *)
Definition get_page_links_cached (w : World) (page_name : string)
  : Cached -> Exc (list string) * Cached :=
  fun c =>
    match dict_get page_name (lru c) with
    | Some links =>
        (Ok links,
         {| lru := dict_remove page_name (lru c) ++ [(page_name, links)];
            inner := inner c |})
    | None =>
        let (r, s') := get_page_links_with_cache w page_name (inner c) in
        match r with
        | Raise => (Raise, {| lru := lru c; inner := s' |})
        | Ok links =>
            let kept :=
              if List.length (lru c) <? lru_maxsize then lru c
              else tl (lru c) in
            (Ok links,
             {| lru := kept ++ [(page_name, links)]; inner := s' |})
        end
    end.

(** An empty [lru_cache] over a fresh process. *)
Definition cold : Cached := {| lru := []; inner := fresh [] |}.

(* ------------------------------------------------------------------ *)
(** ** [main]: who wins a round *)

Inductive Verdict : Type :=
| ComputerWins
| UserWins
| Tie
| UserByDefault
| ComputerByDefault
| NobodyWins.

(** The "Winner" block of [main]: the longer path wins. *)
Definition winner (computer_path user_path : list string) : Verdict :=
  match computer_path, user_path with
  | _ :: _, _ :: _ =>
      if List.length user_path <? List.length computer_path
      then ComputerWins
      else if List.length computer_path <? List.length user_path
           then UserWins
           else Tie
  | [], _ :: _ => UserByDefault
  | _ :: _, [] => ComputerByDefault
  | [], [] => NobodyWins
  end.

(** The verdict seen from the other side of the table. *)
Definition mirror (v : Verdict) : Verdict :=
  match v with
  | ComputerWins => UserWins
  | UserWins => ComputerWins
  | Tie => Tie
  | UserByDefault => ComputerByDefault
  | ComputerByDefault => UserByDefault
  | NobodyWins => NobodyWins
  end.




(* ================================================================== *)
(** * Properties *)

(* ------------------------------------------------------------------ *)
(** ** Strings *)

Section StringFacts.

Local Open Scope string_scope.

Lemma startswith_app (p r : string) : PyStr.startswith p (p ++ r) = true.
Proof.
  induction p as [|a p IH]; simpl; [reflexivity|].
  now rewrite Ascii.eqb_refl, IH.
Qed.

Lemma startswith_inv (p s : string) :
  PyStr.startswith p s = true -> exists r, s = p ++ r.
Proof.
  revert s; induction p as [|a p IH]; intros s H; simpl in *.
  - now exists s.
  - destruct s as [|b s]; [discriminate|].
    apply andb_true_iff in H as [Hab Hps].
    apply Ascii.eqb_eq in Hab; subst b.
    destruct (IH _ Hps) as [r ->]. now exists r.
Qed.

Lemma contains_app (t pre post : string) :
  PyStr.contains t (pre ++ t ++ post) = true.
Proof.
  induction pre as [|c pre IH].
  - change ("" ++ t ++ post) with (t ++ post).
    pose proof (startswith_app t post) as H.
    destruct (t ++ post); simpl; now rewrite H.
  - simpl. rewrite IH. apply orb_true_r.
Qed.

Lemma contains_inv (t s : string) :
  PyStr.contains t s = true -> exists pre post, s = pre ++ t ++ post.
Proof.
  induction s as [|c s IH]; simpl; intros H.
  - rewrite orb_false_r in H. apply startswith_inv in H as [r ->].
    now exists "", r.
  - apply orb_true_iff in H as [H|H].
    + apply startswith_inv in H as [r ->]. now exists "", r.
    + destruct (IH H) as (pre & post & ->). now exists (String c pre), post.
Qed.

Lemma lower_app (a b : string) :
  PyStr.lower (a ++ b) = PyStr.lower a ++ PyStr.lower b.
Proof. induction a as [|c a IH]; simpl; [reflexivity | now rewrite IH]. Qed.

Lemma lower_empty (m : string) : PyStr.lower m = "" -> m = "".
Proof. destruct m; [reflexivity | discriminate]. Qed.

Lemma is_empty_app_mid (pre m post : string) :
  m <> "" -> PyStr.is_empty (pre ++ m ++ post) = false.
Proof.
  intros Hm. destruct pre; simpl; [|reflexivity].
  destruct m; [contradiction | reflexivity].
Qed.

Lemma mem_In (x : string) (l : list string) : PyStr.mem x l = true <-> In x l.
Proof.
  unfold PyStr.mem. rewrite existsb_exists. split.
  - intros (y & Hy & E). apply String.eqb_eq in E. now subst.
  - intros H. exists x. split; [assumption | apply String.eqb_refl].
Qed.

Lemma mem_false (x : string) (l : list string) :
  PyStr.mem x l = false <-> ~ In x l.
Proof.
  rewrite <- mem_In. destruct (PyStr.mem x l); split; congruence.
Qed.

End StringFacts.

(* ------------------------------------------------------------------ *)
(** ** PageFilter *)

Section PageFilter.

Local Open Scope string_scope.

(** A name in which some spelling [m] of a black-listed marker occurs,
    whatever the case of its letters, is rejected. *)
Lemma is_regular_page_marker (marker m pre post : string) :
  In marker meta_blacklist -> PyStr.lower m = marker ->
  is_regular_page (pre ++ m ++ post) = false.
Proof.
  intros Hin Hm. unfold is_regular_page.
  assert (Hne : m <> "").
  { intros ->. simpl in Hm. subst marker.
    simpl in Hin. repeat (destruct Hin as [Hin|Hin]; [discriminate|]).
    contradiction. }
  rewrite (is_empty_app_mid pre m post Hne). cbv zeta.
  replace (existsb _ meta_blacklist) with true; [reflexivity|].
  symmetry. apply existsb_exists. exists marker. split; [assumption|].
  rewrite !lower_app, Hm. apply contains_app.
Qed.

(** A name that begins with some spelling [m] of "list of" or "index of". *)
Lemma is_regular_page_listing (p m rest : string) :
  p = "list of" \/ p = "index of" -> PyStr.lower m = p ->
  is_regular_page (m ++ rest) = false.
Proof.
  intros Hp Hm. unfold is_regular_page.
  destruct (PyStr.is_empty (m ++ rest)); [reflexivity|]. cbv zeta.
  destruct (existsb _ meta_blacklist); [reflexivity|].
  rewrite lower_app, Hm.
  destruct Hp as [-> | ->].
  - now rewrite (startswith_app "list of").
  - rewrite (startswith_app "index of"), orb_true_r. reflexivity.
Qed.

Lemma is_regular_page_long (name : string) :
  150 < String.length name -> is_regular_page name = false.
Proof.
  intros H. unfold is_regular_page.
  destruct (PyStr.is_empty name); [reflexivity|]. cbv zeta.
  destruct (existsb _ meta_blacklist); [reflexivity|].
  destruct (_ || _); [reflexivity|].
  apply Nat.ltb_lt in H. now rewrite H.
Qed.

(** C3.  [is_regular_page] rejects the empty name, every name of more than
    150 characters, every name in which a marker of the black list occurs in
    any mix of upper and lower case (so every name that starts with
    "Category:" and every name that contains "disambiguation"), and every
    name that begins with "list of" or "index of" in any case; it accepts
    "Albert Einstein".  It reads and writes no state: it is a function from
    strings to booleans, outside the state monad [M]. *)
Theorem is_regular_page_rejects :
  is_regular_page "" = false
  /\ (forall name, 150 < String.length name -> is_regular_page name = false)
  /\ (forall marker m pre post,
         In marker meta_blacklist -> PyStr.lower m = marker ->
         is_regular_page (pre ++ m ++ post) = false)
  /\ (forall p m rest,
         p = "list of" \/ p = "index of" -> PyStr.lower m = p ->
         is_regular_page (m ++ rest) = false)
  /\ (forall rest, is_regular_page ("Category:" ++ rest) = false)
  /\ (forall m pre post,
         PyStr.lower m = "disambiguation" ->
         is_regular_page (pre ++ m ++ post) = false)
  /\ is_regular_page "Albert Einstein" = true.
Proof.
  split; [reflexivity|].
  split; [exact is_regular_page_long|].
  split; [exact is_regular_page_marker|].
  split; [exact is_regular_page_listing|].
  split.
  - intros rest.
    apply (is_regular_page_marker "category:" "Category:" "" rest);
      [simpl; tauto | reflexivity].
  - split; [|reflexivity].
    intros m pre post Hm.
    apply (is_regular_page_marker "disambiguation" m pre post);
      [simpl; tauto | assumption].
Qed.

End PageFilter.

(** C3 on names: a marker in capitals, a listing, a namespace, a title. *)
Lemma is_regular_page_rejects_run :
  is_regular_page "Mercury (DISAMBIGUATION)" = false
  /\ is_regular_page "List Of rivers" = false
  /\ is_regular_page "Category:Rivers" = false
  /\ is_regular_page "Albert Einstein" = true.
Proof.
  destruct is_regular_page_rejects as (_ & _ & Hmark & Hlist & Hcat & _ & Hok).
  split; [|split; [|split]].
  - apply (Hmark "disambiguation" "DISAMBIGUATION" "Mercury (" ")");
      [simpl; tauto | reflexivity].
  - apply (Hlist "list of" "List Of" " rivers"); [now left | reflexivity].
  - apply (Hcat "Rivers").
  - exact Hok.
Defined.

(* ------------------------------------------------------------------ *)
(** ** LinkCache *)

Section LinkCache.

Variable w : World.

Lemma dict_get_set_same {V : Type} (k : string) (v : V) (d : list (string * V)) :
  dict_get k (dict_set k v d) = Some v.
Proof.
  induction d as [|[k' v'] d IH]; simpl.
  - now rewrite String.eqb_refl.
  - destruct (String.eqb k k') eqn:E; simpl; now rewrite E.
Qed.

Lemma dict_get_set_other {V : Type} (k k' : string) (v : V)
    (d : list (string * V)) :
  k' <> k -> dict_get k' (dict_set k v d) = dict_get k' d.
Proof.
  intros Hne. induction d as [|[k0 v0] d IH]; simpl.
  - apply String.eqb_neq in Hne. now rewrite Hne.
  - destruct (String.eqb k k0) eqn:E; simpl.
    + apply String.eqb_eq in E. subst k0.
      apply String.eqb_neq in Hne. now rewrite Hne.
    + now rewrite IH.
Qed.

Lemma dict_get_In {V : Type} (k : string) (v : V) (d : list (string * V)) :
  dict_get k d = Some v -> In (k, v) d.
Proof.
  induction d as [|[k' v'] d IH]; simpl; [discriminate|].
  destruct (String.eqb k k') eqn:E.
  - apply String.eqb_eq in E. intros [= ->]. left. now subst.
  - intros H. right. now apply IH.
Qed.

Lemma dict_set_In {V : Type} (k k' : string) (v v' : V)
    (d : list (string * V)) :
  In (k', v') (dict_set k v d) -> (k', v') = (k, v) \/ In (k', v') d.
Proof.
  induction d as [|[k0 v0] d IH]; simpl.
  - intros [H|[]]. left. now symmetry.
  - destruct (String.eqb k k0) eqn:E; simpl.
    + apply String.eqb_eq in E. subst k0.
      intros [H|H]; [left; now symmetry | right; now right].
    + intros [H|H]; [right; now left|].
      destruct (IH H) as [H'|H']; [now left | right; now right].
Qed.

Lemma trim_oldest_In (x : string * list string) (m : list (string * list string)) :
  In x (trim_oldest m) -> In x m.
Proof.
  unfold trim_oldest. destruct (1000 <? List.length m); [|trivial].
  intros H. rewrite <- (firstn_skipn 500 m). apply in_or_app. now right.
Qed.

(** [get_page] only talks to the outside: caches and table stay as they are. *)
Lemma get_page_frame (name : string) (s s' : State) (r : option WikipediaPage) :
  get_page w name s = (r, s') ->
  memory_cache s' = memory_cache s /\ pages s' = pages s /\ conn s' = conn s.
Proof.
  unfold get_page, python_fallback, page_exact, ask, bind, ret. simpl.
  repeat match goal with
         | |- context [match ?x with _ => _ end] => destruct x
         end;
    intros [= <- <-]; simpl; auto.
Qed.

Lemma fetch_links_outcome (t : string) (s s' : State) (r : Exc (list string)) :
  fetch_links w t s = (r, s') -> miss_outcome w t s s' r.
Proof.
  unfold fetch_links, bind, ret, db_select.
  destruct (select_ok w (calls s)).
  2: { unfold memory_put. intros [= <- <-]. left. simpl. auto. }
  destruct (dict_get t (pages s)) as [raw|] eqn:Hd.
  { unfold filter_and_store, bind, ret, memory_trim, memory_put.
    intros [= <- <-]. right. exists raw. simpl. auto. }
  destruct (get_page w t (tick s)) as [[page|] s1] eqn:Hp;
    destruct (get_page_frame _ _ _ _ Hp) as (Hf1 & Hf2 & Hf3); simpl in *.
  2: { unfold memory_put. intros [= <- <-]. left. simpl.
       rewrite Hf1, Hf2. auto. }
  unfold db_insert, filter_and_store, bind, ret, memory_trim, memory_put.
  destruct (insert_ok w (calls s1)); intros [= <- <-]; right;
    exists (raw_links page); simpl; rewrite Hf1, Hf2;
    (split; [reflexivity|]); (split; [reflexivity|]).
  - right. exists page, (tick s), s1. auto.
  - now left.
Qed.

(** What a call that finds neither an empty name nor a hot entry does. *)
Lemma cache_miss (t : string) (s s' : State) (r : Exc (list string)) :
  PyStr.is_empty t = false ->
  dict_get t (memory_cache s) = None ->
  get_page_links_with_cache w t s = (r, s') ->
  (r = Raise /\ memory_cache s' = memory_cache s /\ pages s' = pages s)
  \/ miss_outcome w t s s' r.
Proof.
  intros He Hm. unfold get_page_links_with_cache. rewrite He, Hm.
  unfold bind, ret, get_db_connection.
  destruct (conn s) eqn:Hc.
  { intros H. right. now apply fetch_links_outcome. }
  destruct (sqlite_connect w (calls s)).
  - intros H. right. apply fetch_links_outcome in H.
    unfold miss_outcome in *. simpl in H. exact H.
  - intros [= <- <-]. left. simpl. auto.
  - intros [= <- <-]. left. simpl. auto.
Qed.

End LinkCache.

Section LinkCacheClaims.

Variable w : World.

Lemma filter_links_reference_list (t : string) (raw : list string) :
  reference_list t (filter_links t raw).
Proof.
  intros x Hx. unfold filter_links in Hx. apply filter_In in Hx as [_ Hx].
  apply andb_true_iff in Hx as [Hx Hne].
  apply andb_true_iff in Hx as [_ Hreg].
  split; [|assumption].
  apply negb_true_iff, String.eqb_neq in Hne. assumption.
Qed.

(** C4.  When a call of [get_page_links_with_cache] for a topic returns a
    list, the next call for the same topic, made in the state the first one
    left, returns the same list and changes nothing, whichever tier answered
    the first call. *)
Theorem get_page_links_with_cache_repeat (t : string) (s s1 : State)
    (l : list string) :
  get_page_links_with_cache w t s = (Ok l, s1) ->
  get_page_links_with_cache w t s1 = (Ok l, s1).
Proof.
  intros H.
  destruct (PyStr.is_empty t) eqn:He.
  { unfold get_page_links_with_cache in *. rewrite He in *.
    now injection H as <- <-. }
  destruct (dict_get t (memory_cache s)) as [cached|] eqn:Hm.
  { unfold get_page_links_with_cache in *. rewrite He, Hm in H.
    injection H as <- <-. now rewrite He, Hm. }
  assert (Hhot : dict_get t (memory_cache s1) = Some l).
  { destruct (cache_miss w t s s1 _ He Hm H) as [(Hr & _) | [(Hr & Hc & _) | (raw & Hr & Hc & _)]].
    - discriminate.
    - injection Hr as ->. rewrite Hc. apply dict_get_set_same.
    - injection Hr as ->. rewrite Hc. apply dict_get_set_same. }
  unfold get_page_links_with_cache. now rewrite He, Hhot.
Qed.

(** C5, as the code has it.  A call of [get_page_links_with_cache] leaves the
    table [pages] as it was, or sets the row of the topic to the raw list
    that Wikipedia gave for it ([page.links + page.categories], not filtered).
    The filter is applied to what is returned and kept in the hot tier: when
    every hot entry is a filtered list before the call, so is every hot entry
    after it, and the list returned holds neither the topic itself nor a
    name that [is_regular_page] rejects. *)
Theorem durable_tier_keeps_raw_list (t : string) (s s' : State)
    (r : Exc (list string)) :
  hot_filtered s ->
  get_page_links_with_cache w t s = (r, s') ->
  (pages s' = pages s
   \/ exists page s0 s1,
       get_page w t s0 = (Some page, s1)
       /\ pages s' = dict_set t (raw_links page) (pages s))
  /\ hot_filtered s'
  /\ (forall l, r = Ok l -> reference_list t l).
Proof.
  intros Hwf H.
  destruct (PyStr.is_empty t) eqn:He.
  { unfold get_page_links_with_cache in H. rewrite He in H.
    injection H as <- <-. split; [now left | split; [assumption|]].
    intros l [= <-] x []. }
  destruct (dict_get t (memory_cache s)) as [cached|] eqn:Hm.
  { unfold get_page_links_with_cache in H. rewrite He, Hm in H.
    injection H as <- <-. split; [now left | split; [assumption|]].
    intros l [= <-]. apply (Hwf t cached). now apply dict_get_In. }
  destruct (cache_miss w t s s' _ He Hm H)
    as [(Hr & Hc & Hp) | [(Hr & Hc & Hp) | (raw & Hr & Hc & Hp)]].
  - subst r. split; [now left | split].
    + intros k v. rewrite Hc. apply Hwf.
    + discriminate.
  - subst r. split; [now left | split].
    + intros k v Hin. rewrite Hc in Hin.
      apply dict_set_In in Hin as [[= -> ->] | Hin];
        [intros x [] | now apply Hwf].
    + intros l [= <-] x [].
  - subst r. split; [|split].
    + destruct Hp as [Hp | (page & s0 & s1 & Hg & -> & Hp)];
        [now left | right; now exists page, s0, s1].
    + intros k v Hin. rewrite Hc in Hin.
      apply dict_set_In in Hin as [[= -> ->] | Hin].
      * apply filter_links_reference_list.
      * apply Hwf. now apply trim_oldest_In.
    + intros l [= <-]. apply filter_links_reference_list.
Qed.

End LinkCacheClaims.

(** C4 on a run: the first call for "A" goes down to Wikipedia. *)
Lemma get_page_links_with_cache_repeat_run :
  let wd := Scenario.chain_world in
  let first := get_page_links_with_cache wd "A" (fresh []) in
  fst first = Ok ["B"]
  /\ get_page_links_with_cache wd "A" (snd first) = (Ok ["B"], snd first).
Proof.
  cbv zeta. split; [reflexivity|].
  apply get_page_links_with_cache_repeat with (s := fresh []). reflexivity.
Defined.

(** C5 against the claim as written: the row written for "Physics" holds
    "Physics" itself and a maintenance category, while the list returned is
    the filtered one. *)
Lemma durable_tier_row_not_filtered :
  let run := get_page_links_with_cache
               Scenario.physics_world
               "Physics" (fresh []) in
  fst run = Ok ["Energy"]
  /\ pages (snd run)
     = [("Physics", ["Energy"; "Physics"; "Articles with short description"])]
  /\ is_regular_page "Articles with short description" = false
  /\ ~ (forall stored,
          dict_get "Physics" (pages (snd run)) = Some stored ->
          reference_list "Physics" stored).
Proof.
  cbv zeta. split; [reflexivity|]. split; [reflexivity|].
  split; [reflexivity|].
  intros H.
  destruct (H _ eq_refl "Physics") as [Hne _]; [simpl; tauto|].
  now apply Hne.
Qed.

(** C5 on a run from a fresh process. *)
Lemma durable_tier_keeps_raw_list_run :
  hot_filtered (fresh [])
  /\ hot_filtered
       (snd (get_page_links_with_cache
               Scenario.physics_world
               "Physics" (fresh []))).
Proof.
  assert (H0 : hot_filtered (fresh [])) by (intros k v []).
  split; [exact H0|].
  eapply (durable_tier_keeps_raw_list _ "Physics" (fresh [])); [exact H0|].
  apply surjective_pairing.
Defined.

(* ------------------------------------------------------------------ *)
(** ** PathValidator *)

Section PathValidator.

Variable w : World.

Lemma verify_pairs_step (a b : string) (rest : list string) (s : State) :
  verify_pairs w (a :: b :: rest) s
  = let (r, s1) := get_page_links_with_cache w a s in
    match r with
    | Ok links =>
        if PyStr.mem b links then verify_pairs w (b :: rest) s1
        else (false, s1)
    | Raise => (false, s1)
    end.
Proof.
  cbn [verify_pairs]. unfold bind, ret.
  destruct (get_page_links_with_cache w a s) as [[links|] s1];
    [destruct (PyStr.mem b links)|]; reflexivity.
Qed.

Lemma verify_path_exists_pairs (path : list string) (s : State) :
  verify_path_exists w path s = verify_pairs w path s.
Proof.
  unfold verify_path_exists.
  destruct path as [|a [|b rest]]; reflexivity.
Qed.

Lemma verify_pairs_linked (path : list string) (s : State) :
  fst (verify_pairs w path s) = true <->
  forall i, S i < List.length path ->
    exists links,
      fst (get_page_links_with_cache w (nth i path "") (state_before w path i s))
      = Ok links
      /\ In (nth (S i) path "") links.
Proof.
  revert s. induction path as [|a path IH]; intros s.
  - split; [intros _ i Hi; simpl in Hi; lia | reflexivity].
  - destruct path as [|b rest].
    + split; [intros _ i Hi; simpl in Hi; lia | reflexivity].
    + rewrite verify_pairs_step.
      destruct (get_page_links_with_cache w a s) as [r s1] eqn:E.
      split.
      * intros H i Hi.
        destruct r as [links|]; [|discriminate].
        destruct (PyStr.mem b links) eqn:Hb; [|discriminate].
        destruct i as [|i].
        -- exists links. simpl. rewrite E. split; [reflexivity|].
           now apply mem_In.
        -- cbn [state_before nth]. rewrite E. cbn [snd].
           apply (proj1 (IH s1) H i). simpl in *. lia.
      * intros H.
        destruct (H 0) as (links & Hl & Hin); [simpl; lia|].
        simpl in Hl, Hin. rewrite E in Hl. simpl in Hl. subst r.
        apply mem_In in Hin. rewrite Hin.
        apply IH. intros i Hi.
        specialize (H (S i)). cbn [state_before nth] in H.
        rewrite E in H. cbn [snd] in H. apply H. simpl in *. lia.
Qed.

(** C2.  [verify_path_exists] accepts every path of length 0 or 1 and leaves
    the state alone.  It accepts a longer path exactly when, for every pair
    of neighbours [(a, b)] in it, the call of [get_page_links_with_cache] for
    [a], made in the state the checks before it left, returns a list that
    holds [b].  A call that raises, or that returns the empty list after a
    failure below, makes it answer [false]. *)
Theorem verify_path_exists_linked (path : list string) (s : State) :
  (List.length path <= 1 -> verify_path_exists w path s = (true, s))
  /\ (fst (verify_path_exists w path s) = true <->
      forall i, S i < List.length path ->
        exists links,
          fst (get_page_links_with_cache w (nth i path "")
                                         (state_before w path i s))
          = Ok links
          /\ In (nth (S i) path "") links)
  /\ (forall i, S i < List.length path ->
        fst (get_page_links_with_cache w (nth i path "")
                                       (state_before w path i s)) = Raise
        \/ fst (get_page_links_with_cache w (nth i path "")
                                          (state_before w path i s)) = Ok [] ->
        fst (verify_path_exists w path s) = false).
Proof.
  split; [|split].
  - intros Hlen. destruct path as [|a [|b rest]]; try reflexivity.
    simpl in Hlen. lia.
  - rewrite verify_path_exists_pairs. apply verify_pairs_linked.
  - intros i Hi Hfail.
    destruct (fst (verify_path_exists w path s)) eqn:Hv; [|reflexivity].
    rewrite verify_path_exists_pairs in Hv.
    destruct (proj1 (verify_pairs_linked path s) Hv i Hi) as (links & Hl & Hin).
    rewrite Hl in Hfail. destruct Hfail as [Hf|Hf]; [discriminate|].
    injection Hf as ->. contradiction.
Qed.

(** *** Asking again

    As long as the hot tier is not flushed, a path that was accepted is
    accepted again in the state the first check left, from the hot tier
    alone. *)

Lemma dict_set_length {V : Type} (k : string) (v : V) (d : list (string * V)) :
  List.length (dict_set k v d) <= S (List.length d).
Proof.
  induction d as [|[k' v'] d IH]; simpl; [lia|].
  destruct (String.eqb k k'); simpl; lia.
Qed.

Lemma cache_hit (a : string) (l : list string) (s : State) :
  PyStr.is_empty a = false -> dict_get a (memory_cache s) = Some l ->
  get_page_links_with_cache w a s = (Ok l, s).
Proof.
  intros He Hm. unfold get_page_links_with_cache. now rewrite He, Hm.
Qed.

Lemma cache_holds_answer (a : string) (l : list string) (s s1 : State) :
  PyStr.is_empty a = false ->
  get_page_links_with_cache w a s = (Ok l, s1) ->
  dict_get a (memory_cache s1) = Some l.
Proof.
  intros He H.
  destruct (dict_get a (memory_cache s)) as [cached|] eqn:Hm.
  - rewrite (cache_hit a cached s He Hm) in H. now injection H as <- <-.
  - destruct (cache_miss w a s s1 _ He Hm H)
      as [(Hr & _) | [(Hr & Hc & _) | (raw & Hr & Hc & _)]];
      [discriminate | |]; injection Hr as ->; rewrite Hc;
      apply dict_get_set_same.
Qed.

Lemma cache_keeps_entries (b : string) (r : Exc (list string)) (s s1 : State) :
  List.length (memory_cache s) <= 1000 ->
  get_page_links_with_cache w b s = (r, s1) ->
  (forall k v, dict_get k (memory_cache s) = Some v ->
               dict_get k (memory_cache s1) = Some v)
  /\ List.length (memory_cache s1) <= S (List.length (memory_cache s)).
Proof.
  intros Hlen H.
  destruct (PyStr.is_empty b) eqn:He.
  { unfold get_page_links_with_cache in H. rewrite He in H.
    injection H as <- <-. auto. }
  destruct (dict_get b (memory_cache s)) as [cached|] eqn:Hm.
  { rewrite (cache_hit b cached s He Hm) in H. injection H as <- <-. auto. }
  assert (Hother : forall k v, dict_get k (memory_cache s) = Some v -> k <> b).
  { intros k v Hk ->. congruence. }
  assert (Htrim : trim_oldest (memory_cache s) = memory_cache s).
  { unfold trim_oldest.
    destruct (1000 <? List.length (memory_cache s)) eqn:E; [|reflexivity].
    apply Nat.ltb_lt in E. lia. }
  destruct (cache_miss w b s s1 _ He Hm H)
    as [(_ & Hc & _) | [(_ & Hc & _) | (raw & _ & Hc & _)]]; rewrite Hc.
  - auto.
  - split; [|apply dict_set_length].
    intros k v Hk. rewrite dict_get_set_other; [assumption | eauto].
  - rewrite Htrim. split; [|apply dict_set_length].
    intros k v Hk. rewrite dict_get_set_other; [assumption | eauto].
Qed.

Lemma hot_linked_accepted (path : list string) (s : State) :
  hot_linked (memory_cache s) path -> verify_pairs w path s = (true, s).
Proof.
  induction path as [|a path IH]; [reflexivity|].
  destruct path as [|b rest]; [reflexivity|].
  intros (He & (l & Hl & Hin) & Hrest).
  rewrite verify_pairs_step, (cache_hit a l s He Hl).
  apply mem_In in Hin. rewrite Hin. now apply IH.
Qed.

Lemma hot_linked_kept (m m' : list (string * list string)) (path : list string) :
  (forall k v, dict_get k m = Some v -> dict_get k m' = Some v) ->
  hot_linked m path -> hot_linked m' path.
Proof.
  intros Hkeep. induction path as [|a path IH]; [trivial|].
  destruct path as [|b rest]; [trivial|].
  intros (He & (l & Hl & Hin) & Hrest).
  split; [assumption|]. split; [exists l; auto | now apply IH].
Qed.

Lemma accepted_hot_linked (path : list string) (s s' : State) :
  verify_pairs w path s = (true, s') ->
  List.length (memory_cache s) + List.length path <= 1001 ->
  hot_linked (memory_cache s') path
  /\ (forall k v, dict_get k (memory_cache s) = Some v ->
                  dict_get k (memory_cache s') = Some v).
Proof.
  revert s. induction path as [|a path IH]; intros s.
  { intros [= <-] _. simpl. auto. }
  destruct path as [|b rest].
  { intros [= <-] _. simpl. auto. }
  rewrite verify_pairs_step.
  destruct (get_page_links_with_cache w a s) as [[l|] s1] eqn:Eg;
    [|discriminate].
  destruct (PyStr.mem b l) eqn:Hb; [|discriminate].
  intros Hv Hlen. simpl in Hlen.
  destruct (cache_keeps_entries a _ s s1 ltac:(lia) Eg) as [Hkeep1 Hlen1].
  destruct (IH s1 Hv ltac:(simpl; lia)) as [Hrest Hkeep2].
  assert (He : PyStr.is_empty a = false).
  { destruct (PyStr.is_empty a) eqn:E; [|reflexivity].
    unfold get_page_links_with_cache in Eg. rewrite E in Eg.
    injection Eg as <- <-. discriminate. }
  split; [|auto].
  split; [assumption|]. split; [|assumption].
  exists l. split; [|now apply mem_In].
  apply Hkeep2. now apply (cache_holds_answer a l s s1).
Qed.

Lemma verify_path_exists_again (path : list string) (s s' : State) :
  verify_path_exists w path s = (true, s') ->
  List.length (memory_cache s) + List.length path <= 1001 ->
  verify_path_exists w path s' = (true, s').
Proof.
  rewrite !verify_path_exists_pairs. intros Hv Hlen.
  apply hot_linked_accepted. now apply (accepted_hot_linked path s s').
Qed.

End PathValidator.

(** C2 on a run: A links to B and B links to C. *)
Lemma verify_path_exists_linked_run :
  let wd := Scenario.chain_world in
  verify_path_exists wd ["A"] (fresh []) = (true, fresh [])
  /\ fst (verify_path_exists wd ["A"; "B"; "C"] (fresh [])) = true
  /\ fst (verify_path_exists wd ["A"; "C"] (fresh [])) = false.
Proof.
  cbv zeta.
  destruct (verify_path_exists_linked
              Scenario.chain_world
              ["A"] (fresh [])) as (H1 & _).
  destruct (verify_path_exists_linked
              Scenario.chain_world
              ["A"; "B"; "C"] (fresh [])) as (_ & H2 & _).
  split; [apply H1; simpl; lia|].
  split; [|reflexivity].
  apply H2. intros [|[|i]] Hi.
  - exists ["B"]. split; [reflexivity | simpl; tauto].
  - exists ["C"]. split; [reflexivity | simpl; tauto].
  - simpl in Hi. lia.
Defined.

(* ------------------------------------------------------------------ *)
(** ** Sorting by score *)

Section Sorting.

Lemma key_le_total (a b : string * nat) : key_le a b = true \/ key_le b a = true.
Proof.
  unfold key_le.
  destruct (snd b <? snd a) eqn:E1; [now left|].
  destruct (snd a <? snd b) eqn:E2; [now right|].
  apply Nat.ltb_ge in E1, E2.
  assert (E : snd a = snd b) by lia.
  rewrite E, Nat.eqb_refl. simpl.
  destruct (String.length (fst a) <=? String.length (fst b)) eqn:E3;
    [now left | right].
  apply Nat.leb_gt in E3. apply Nat.leb_le. lia.
Qed.

Lemma key_le_trans (a b c : string * nat) :
  key_le a b = true -> key_le b c = true -> key_le a c = true.
Proof.
  unfold key_le. intros H1 H2.
  apply orb_true_iff in H1, H2. apply orb_true_iff.
  rewrite !andb_true_iff, !Nat.ltb_lt, !Nat.eqb_eq, !Nat.leb_le in *.
  lia.
Qed.

Lemma insert_by_key_perm (x : string * nat) (l : list (string * nat)) :
  Permutation (insert_by_key x l) (x :: l).
Proof.
  induction l as [|y l IH]; simpl; [reflexivity|].
  destruct (key_le x y); [reflexivity|].
  rewrite IH. apply perm_swap.
Qed.

Lemma sort_by_key_perm (l : list (string * nat)) :
  Permutation (sort_by_key l) l.
Proof.
  induction l as [|x l IH]; simpl; [reflexivity|].
  rewrite insert_by_key_perm. now constructor.
Qed.

Lemma insert_by_key_sorted (x : string * nat) (l : list (string * nat)) :
  StronglySorted (fun a b => key_le a b = true) l ->
  StronglySorted (fun a b => key_le a b = true) (insert_by_key x l).
Proof.
  induction 1 as [|y l Hs IH Hy]; simpl.
  - repeat constructor.
  - destruct (key_le x y) eqn:E.
    + constructor; [now constructor|].
      constructor; [assumption|].
      rewrite Forall_forall in *. intros z Hz.
      eapply key_le_trans; [exact E | now apply Hy].
    + constructor; [assumption|].
      rewrite Forall_forall in *. intros z Hz.
      apply (Permutation_in _ (insert_by_key_perm x l)) in Hz.
      destruct Hz as [<- | Hz]; [|now apply Hy].
      destruct (key_le_total x y) as [H|H]; [congruence | assumption].
Qed.

Lemma sort_by_key_sorted (l : list (string * nat)) :
  StronglySorted (fun a b => key_le a b = true) (sort_by_key l).
Proof.
  induction l as [|x l IH]; simpl; [constructor|].
  now apply insert_by_key_sorted.
Qed.



End Sorting.

(* ------------------------------------------------------------------ *)
(** ** One turn of the search loop *)

Section Iteration.

Variable w : World.

Lemma score_neighbors_outcome (end_title : string) (end_words vis path : list string)
    (neighbors : list string) (acc : list (string * nat)) (s s' : State)
    (scan : Scan) :
  score_neighbors w end_title end_words vis path neighbors acc s = (scan, s') ->
  match scan with
  | Found final_path =>
      final_path = path ++ [end_title]
      /\ exists s0, verify_path_exists w final_path s0 = (true, s')
  | Scored scored =>
      scored = acc ++ map (fun n => (n, relevance end_words n))
                          (filter (candidate vis) neighbors)
  end.
Proof.
  revert acc s. induction neighbors as [|n rest IH]; intros acc s.
  - simpl. unfold ret. intros [= <- <-]. now rewrite app_nil_r.
  - cbn [score_neighbors]. unfold bind, ret.
    destruct (String.eqb n end_title) eqn:En.
    + apply String.eqb_eq in En. subst n.
      destruct (verify_path_exists w (path ++ [end_title]) s) as [[|] s1] eqn:Ev.
      * intros [= <- <-]. split; [reflexivity | now exists s].
      * intros H. apply IH in H. destruct scan as [|scored]; [exact H|].
        rewrite H. cbn [filter]. unfold candidate at 2.
        destruct (negb (PyStr.mem end_title vis)
                  && (String.length end_title <? 100));
          [now rewrite <- app_assoc | reflexivity].
    + intros H. apply IH in H. destruct scan as [|scored]; [exact H|].
      rewrite H. cbn [filter]. unfold candidate at 2.
      destruct (negb (PyStr.mem n vis) && (String.length n <? 100));
        [now rewrite <- app_assoc | reflexivity].
Qed.

Lemma enqueue_newly_seen (path top vis : list string)
    (q : list (string * list string)) :
  enqueue path top vis q
  = (rev (newly_seen top vis) ++ vis,
     q ++ map (fun n => (n, path ++ [n])) (newly_seen top vis)).
Proof.
  revert vis q. induction top as [|n rest IH]; intros vis q; simpl.
  - now rewrite app_nil_r.
  - destruct (PyStr.mem n vis); [apply IH|].
    rewrite IH. simpl. now rewrite <- !app_assoc.
Qed.

Lemma newly_seen_In (top vis : list string) (x : string) :
  In x (newly_seen top vis) <-> In x top /\ ~ In x vis.
Proof.
  revert vis. induction top as [|n rest IH]; intros vis; simpl.
  - tauto.
  - destruct (PyStr.mem n vis) eqn:E.
    + apply mem_In in E. rewrite IH. split.
      * intros [H1 H2]. auto.
      * intros [[->|H1] H2]; [contradiction | auto].
    + apply mem_false in E. simpl. rewrite IH. simpl. split.
      * intros [->|[H1 H2]]; [auto|]. split; [auto|]. intros H. apply H2. auto.
      * intros [[->|H1] H2]; [auto|].
        destruct (string_dec n x) as [->|Hne]; [auto|].
        right. split; [assumption|]. intros [H|H]; auto.
Qed.

Lemma newly_seen_NoDup (top vis : list string) : NoDup (newly_seen top vis).
Proof.
  revert vis. induction top as [|n rest IH]; intros vis; simpl.
  - constructor.
  - destruct (PyStr.mem n vis); [apply IH|].
    constructor; [|apply IH].
    rewrite newly_seen_In. intros [_ H]. apply H. now left.
Qed.


(** The body of the loop, with its sequencing written out. *)
Lemma bfs_iteration_unfold (start_time : Z) (end_title : string)
    (end_words : list string) (max_depth timeout : Z) (f : Frontier)
    (s : State) :
  bfs_iteration w start_time end_title end_words max_depth timeout f s
  = if (timeout <? time_time w (calls s) - start_time)%Z
    then (Break f, tick s)
    else
      match queue f with
      | [] => (Break f, tick s)
      | (current_title, path) :: queue' =>
          if (max_depth <=? Z.of_nat (List.length path))%Z
          then (Continue (popped f current_title queue'), tick s)
          else
            let (r, s2) := get_page_links_with_cache w current_title (tick s) in
            match r with
            | Raise => (Continue (popped f current_title queue'), s2)
            | Ok neighbors =>
                let (scan, s3) :=
                  score_neighbors w end_title end_words (visited f) path
                                  neighbors [] s2 in
                match scan with
                | Found final_path =>
                    (Return final_path (popped f current_title queue'), s3)
                | Scored scored =>
                    let top := map fst (firstn 10 (sort_by_key scored)) in
                    (Continue
                       {| queue := queue'
                                   ++ map (fun n => (n, path ++ [n]))
                                          (newly_seen top (visited f));
                          visited := rev (newly_seen top (visited f))
                                     ++ visited f;
                          nodes_processed := S (nodes_processed f);
                          dequeued := dequeued f ++ [current_title] |}, s3)
                end
            end
      end.
Proof.
  unfold bfs_iteration, bind, ret, ask. cbn [fst snd].
  destruct (timeout <? time_time w (calls s) - start_time)%Z; [reflexivity|].
  destruct (queue f) as [|[current_title path] queue']; [reflexivity|].
  destruct (max_depth <=? Z.of_nat (List.length path))%Z; [reflexivity|].
  destruct (get_page_links_with_cache w current_title (tick s))
    as [[neighbors|] s2]; [|reflexivity].
  cbn [popped visited queue nodes_processed dequeued].
  destruct (score_neighbors w end_title end_words (visited f) path neighbors [] s2)
    as [[final_path|scored] s3]; [reflexivity|].
  now rewrite enqueue_newly_seen.
Qed.

End Iteration.

(* ------------------------------------------------------------------ *)
(** ** The search loop *)

Section Loop.

Variable w : World.
Variables (start_time : Z) (end_title : string) (end_words : list string).
Variables (max_depth timeout : Z).


(** The ways one turn of the body can go. *)
Lemma bfs_iteration_inv (f : Frontier) (s s' : State) (o : Outcome) :
  bfs_iteration w start_time end_title end_words
                max_depth timeout f s = (o, s') ->
  (o = Break f /\ s' = tick s)
  \/ exists current_title path queue',
      queue f = (current_title, path) :: queue'
      /\ (timeout <? time_time w (calls s) - start_time)%Z = false
      /\ (((max_depth <= Z.of_nat (List.length path))%Z
           /\ o = Continue (popped f current_title queue') /\ s' = tick s)
          \/ ((Z.of_nat (List.length path) < max_depth)%Z
              /\ get_page_links_with_cache w current_title (tick s) = (Raise, s')
              /\ o = Continue (popped f current_title queue'))
          \/ ((Z.of_nat (List.length path) < max_depth)%Z
              /\ exists neighbors s2,
                  get_page_links_with_cache w current_title (tick s)
                  = (Ok neighbors, s2)
                  /\ ((o = Return (path ++ [end_title])
                                  (popped f current_title queue')
                       /\ In end_title neighbors
                       /\ exists s0,
                           verify_path_exists w (path ++ [end_title]) s0
                           = (true, s'))
                      \/ o = Continue
                               (expanded f current_title path queue'
                                         (top_ten end_words (visited f)
                                                  neighbors))))).
Proof.
  rewrite bfs_iteration_unfold.
  destruct (timeout <? time_time w (calls s) - start_time)%Z eqn:Et.
  { intros [= <- <-]. now left. }
  destruct (queue f) as [|[current_title path] queue'] eqn:Eq.
  { intros [= <- <-]. now left. }
  intros H. right. exists current_title, path, queue'.
  split; [reflexivity|]. split; [reflexivity|].
  destruct (max_depth <=? Z.of_nat (List.length path))%Z eqn:Ed.
  { injection H as <- <-. left. apply Z.leb_le in Ed. auto. }
  apply Z.leb_gt in Ed. right.
  destruct (get_page_links_with_cache w current_title (tick s))
    as [[neighbors|] s2] eqn:Eg.
  2: { injection H as <- <-. left. auto. }
  right. split; [assumption|]. exists neighbors, s2. split; [reflexivity|].
  destruct (score_neighbors w end_title end_words (visited f) path neighbors [] s2)
    as [[final_path|scored] s3] eqn:Es.
  - injection H as <- <-.
    pose proof (score_neighbors_outcome _ _ _ _ _ _ _ _ _ _ Es) as [-> Hv].
    left. split; [reflexivity|]. split; [|exact Hv].
    clear - Es. revert Es. generalize (@nil (string * nat)). revert s2.
    induction neighbors as [|n rest IH]; intros s2 acc.
    + simpl. unfold ret. discriminate.
    + cbn [score_neighbors]. unfold bind, ret.
      destruct (String.eqb n end_title) eqn:En.
      * apply String.eqb_eq in En. intros _. now left.
      * intros H. right. eapply IH. exact H.
  - injection H as <- <-.
    pose proof (score_neighbors_outcome _ _ _ _ _ _ _ _ _ _ Es) as ->.
    right. reflexivity.
Qed.

(** Whatever a turn does, it pops at most one item and counts it. *)
Lemma bfs_iteration_counters (f : Frontier) (s s' : State) (o : Outcome) :
  bfs_iteration w start_time end_title end_words
                max_depth timeout f s = (o, s') ->
  match o with
  | Break f' => f' = f
  | Return _ f' | Continue f' =>
      nodes_processed f' = S (nodes_processed f)
      /\ List.length (dequeued f') = S (List.length (dequeued f))
  end.
Proof.
  intros H. apply bfs_iteration_inv in H.
  destruct H as [[-> _] | (c & p & q & Hq & _ & H)]; [reflexivity|].
  destruct H as [(_ & -> & _) | [(_ & _ & ->) | (_ & n & s2 & _ & [(-> & _) | ->])]];
    simpl; rewrite length_app; simpl; split; trivial; lia.
Qed.


Lemma hd_error_app_one (path : list string) (n start : string) :
  hd_error path = Some start -> hd_error (path ++ [n]) = Some start.
Proof. destruct path; [discriminate | trivial]. Qed.

Lemma last_app_one (path : list string) (n d : string) :
  last (path ++ [n]) d = n.
Proof. apply last_last. Qed.

(** A turn that goes on keeps every waiting path rooted at the start. *)
Lemma bfs_iteration_paths_from (start_title : string) (f f' : Frontier)
    (s s' : State) :
  paths_from start_title f ->
  bfs_iteration w start_time end_title end_words
                max_depth timeout f s = (Continue f', s') ->
  paths_from start_title f'.
Proof.
  intros Hinv H. apply bfs_iteration_inv in H.
  destruct H as [[[=] _] | (c & p & q & Hq & _ & H)].
  assert (Hq' : forall t path, In (t, path) q -> hd_error path = Some start_title).
  { intros t path Hin. apply (Hinv t path). rewrite Hq. now right. }
  assert (Hp : hd_error p = Some start_title).
  { apply (Hinv c p). rewrite Hq. now left. }
  destruct H as [(_ & [= ->] & _) | [(_ & _ & [= ->])
                | (_ & n & s2 & _ & [([=] & _) | [= ->]])]];
    try exact Hq'.
  intros t path Hin. simpl in Hin. apply in_app_or in Hin as [Hin|Hin].
  - now apply (Hq' t).
  - apply in_map_iff in Hin as (x & [= <- <-] & _).
    now apply hd_error_app_one.
Qed.

(** A path that a turn returns: rooted at the start, ending at the target,
    within the depth bound, and accepted by [verify_path_exists] in the
    state the turn ends in. *)
Lemma bfs_iteration_return (start_title : string) (f f' : Frontier)
    (s s' : State) (final_path : list string) :
  paths_from start_title f ->
  bfs_iteration w start_time end_title end_words
                max_depth timeout f s = (Return final_path f', s') ->
  hd_error final_path = Some start_title
  /\ last final_path "" = end_title
  /\ (Z.of_nat (List.length final_path) <= max_depth)%Z
  /\ exists s0, verify_path_exists w final_path s0 = (true, s').
Proof.
  intros Hinv H. apply bfs_iteration_inv in H.
  destruct H as [[[=] _] | (c & p & q & Hq & _ & H)].
  destruct H as [(_ & [=] & _) | [(_ & _ & [=])
                | (Hd & n & s2 & _ & [([= -> ->] & _ & Hv) | [=]])]].
  split; [|split; [|split]].
  - apply hd_error_app_one. apply (Hinv c p). rewrite Hq. now left.
  - apply last_app_one.
  - rewrite length_app. simpl. lia.
  - exact Hv.
Qed.

Lemma bfs_while_step (fuel : nat) (f : Frontier) (s : State) :
  bfs_while w (S fuel) start_time end_title end_words
            max_depth timeout f s
  = match queue f with
    | [] => ((None, f), s)
    | _ :: _ =>
        if nodes_processed f <? max_nodes then
          let (o, s1) := bfs_iteration w start_time end_title end_words
                max_depth timeout f s in
          match o with
          | Break f' => ((None, f'), s1)
          | Return final_path f' => ((Some final_path, f'), s1)
          | Continue f' => bfs_while w fuel start_time end_title end_words
            max_depth timeout f' s1
          end
        else ((None, f), s)
    end.
Proof.
  cbn [bfs_while]. unfold bind, ret.
  destruct (queue f); [reflexivity|].
  destruct (nodes_processed f <? max_nodes); [|reflexivity].
  destruct (bfs_iteration w start_time end_title end_words max_depth timeout f s)
    as [[f'|final_path f'|f'] s1]; reflexivity.
Qed.

(** The paths the loop returns. *)
Lemma bfs_while_returns (start_title : string) (fuel : nat) (f f' : Frontier)
    (s s' : State) (final_path : list string) :
  paths_from start_title f ->
  bfs_while w fuel start_time end_title end_words
            max_depth timeout f s = ((Some final_path, f'), s') ->
  hd_error final_path = Some start_title
  /\ last final_path "" = end_title
  /\ (Z.of_nat (List.length final_path) <= max_depth)%Z
  /\ exists s0, verify_path_exists w final_path s0 = (true, s').
Proof.
  revert f s. induction fuel as [|fuel IH]; intros f s Hinv.
  - simpl. unfold ret. discriminate.
  - rewrite bfs_while_step.
    destruct (queue f) eqn:Eq; [discriminate|].
    destruct (nodes_processed f <? max_nodes); [|discriminate].
    destruct (bfs_iteration w start_time end_title end_words
                max_depth timeout f s) as [[f1|p1 f1|f1] s1] eqn:Ei.
    + discriminate.
    + intros [= <- <- <-]. eapply bfs_iteration_return; eassumption.
    + apply IH. eapply bfs_iteration_paths_from; eassumption.
Qed.

(** The loop counts what it pops, and stops at [max_nodes]. *)
Lemma bfs_while_counters (fuel : nat) (f f' : Frontier) (s s' : State)
    (r : option (list string)) :
  List.length (dequeued f) = nodes_processed f ->
  nodes_processed f <= max_nodes ->
  bfs_while w fuel start_time end_title end_words
            max_depth timeout f s = ((r, f'), s') ->
  List.length (dequeued f') = nodes_processed f'
  /\ nodes_processed f' <= max_nodes.
Proof.
  revert f s. induction fuel as [|fuel IH]; intros f s Hlen Hle.
  - simpl. unfold ret. intros [= <- <- <-]. auto.
  - rewrite bfs_while_step.
    destruct (queue f) eqn:Eq; [intros [= <- <- <-]; auto|].
    destruct (nodes_processed f <? max_nodes) eqn:Eg;
      [|intros [= <- <- <-]; auto].
    apply Nat.ltb_lt in Eg.
    destruct (bfs_iteration w start_time end_title end_words
                max_depth timeout f s) as [o s1] eqn:Ei.
    pose proof (bfs_iteration_counters _ _ _ _ Ei) as Hc.
    destruct o as [f1|p1 f1|f1].
    + subst f1. intros [= <- <- <-]. auto.
    + destruct Hc as [Hn Hd]. intros [= <- <- <-]. split; lia.
    + destruct Hc as [Hn Hd]. apply IH; lia.
Qed.

(** Fuel beyond what is left of [max_nodes] is never used: the loop ends by
    its own condition. *)
Lemma bfs_while_fuel (fuel : nat) (f : Frontier) (s : State) :
  max_nodes - nodes_processed f < fuel ->
  bfs_while w (S fuel) start_time end_title end_words
            max_depth timeout f s = bfs_while w fuel start_time end_title end_words
            max_depth timeout f s.
Proof.
  revert f s. induction fuel as [|fuel IH]; intros f s Hfuel; [lia|].
  rewrite (bfs_while_step (S fuel)), (bfs_while_step fuel).
  destruct (queue f); [reflexivity|].
  destruct (nodes_processed f <? max_nodes) eqn:Eg; [|reflexivity].
  apply Nat.ltb_lt in Eg.
  destruct (bfs_iteration w start_time end_title end_words
                max_depth timeout f s) as [o s1] eqn:Ei.
  pose proof (bfs_iteration_counters _ _ _ _ Ei) as Hc.
  destruct o as [f1|p1 f1|f1]; try reflexivity.
  destruct Hc as [Hn _]. apply IH. lia.
Qed.

Lemma bfs_while_more_fuel (extra : nat) (f : Frontier) (s : State) :
  bfs_while w (S max_nodes + extra) start_time end_title end_words
            max_depth timeout f s = bfs_while w (S max_nodes) start_time end_title end_words
            max_depth timeout f s.
Proof.
  induction extra as [|extra IH].
  - now rewrite Nat.add_0_r.
  - rewrite <- IH. rewrite Nat.add_succ_r. apply bfs_while_fuel. lia.
Qed.

End Loop.

(* ------------------------------------------------------------------ *)
(** ** Shortcut, fall-back and orchestration *)

Section Orchestrator.

Variable w : World.

Lemma first_valid_neighbor_outcome (start_title end_title : string)
    (common : list string) (s s' : State) (p : list string) :
  first_valid_neighbor w start_title end_title common s = (Some p, s') ->
  (exists n, p = [start_title; n; end_title])
  /\ exists s0, verify_path_exists w p s0 = (true, s').
Proof.
  revert s. induction common as [|n rest IH]; intros s.
  - simpl. unfold ret. discriminate.
  - cbn [first_valid_neighbor]. unfold bind, ret.
    destruct (verify_path_exists w [start_title; n; end_title] s)
      as [[|] s1] eqn:Ev.
    + intros [= <- <-]. split; [now exists n | now exists s].
    + apply IH.
Qed.

(** The shapes of a shortcut. *)
Lemma find_direct_connection_outcome (start_title end_title : string)
    (s s' : State) (p : list string) :
  find_direct_connection w start_title end_title s = (Some p, s') ->
  (p = [start_title] /\ start_title = end_title /\ s' = s)
  \/ p = [start_title; end_title]
  \/ exists n, p = [start_title; n; end_title].
Proof.
  unfold find_direct_connection, bind, ret.
  destruct (String.eqb start_title end_title) eqn:E.
  { apply String.eqb_eq in E. intros [= <- <-]. left. auto. }
  destruct (get_page_links_with_cache w start_title s) as [[start_links|] s1];
    [|discriminate].
  destruct (PyStr.mem end_title start_links).
  { intros [= <- <-]. right. now left. }
  destruct (get_page_links_with_cache w end_title s1) as [[end_links|] s2];
    [|discriminate].
  intros H. apply first_valid_neighbor_outcome in H as [Hn _].
  right. now right.
Qed.

Lemma find_direct_connection_path (start_title end_title : string)
    (s s' : State) (p : list string) :
  find_direct_connection w start_title end_title s = (Some p, s') ->
  hd_error p = Some start_title /\ last p "" = end_title
  /\ List.length p <= 3.
Proof.
  intros H. apply find_direct_connection_outcome in H.
  destruct H as [(-> & <- & _) | [-> | (n & ->)]]; simpl; repeat split; lia.
Qed.

(** What [find_path_bfs] returns: a shortcut, or a path of the loop. *)
Lemma find_path_bfs_path (start_title end_title : string)
    (max_depth timeout : Z) (s s' : State) (p : list string) :
  find_path_bfs w start_title end_title max_depth timeout s = (Some p, s') ->
  hd_error p = Some start_title /\ last p "" = end_title
  /\ (List.length p <= 3 \/ (Z.of_nat (List.length p) <= max_depth)%Z).
Proof.
  unfold find_path_bfs, find_path_bfs_run, bind, ret, ask.
  destruct (find_direct_connection w start_title end_title (tick s))
    as [direct s1] eqn:Ed.
  assert (Hloop :
    forall r s2,
      bfs_while w (S max_nodes) (time_time w (calls s)) end_title
                (word_set end_title) max_depth timeout
                (bfs_setup start_title) s1 = (r, s2) ->
      fst r = Some p ->
      hd_error p = Some start_title /\ last p "" = end_title
      /\ (List.length p <= 3 \/ (Z.of_nat (List.length p) <= max_depth)%Z)).
  { intros [r f'] s2 Hw Hr. simpl in Hr. subst r.
    apply (bfs_while_returns _ _ _ _ _ _ start_title) in Hw.
    - destruct Hw as (H1 & H2 & H3 & _). auto.
    - intros t path [[= <- <-]|[]]. reflexivity. }
  destruct direct as [[|x xs]|].
  - destruct (bfs_while _ _ _ _ _ _ _ _ s1) as [r s2] eqn:Ew.
    simpl. intros [= Hr <-]. eapply Hloop; eauto.
  - simpl. intros [= <- <-].
    apply find_direct_connection_path in Ed as (H1 & H2 & H3). auto.
  - destruct (bfs_while _ _ _ _ _ _ _ _ s1) as [r s2] eqn:Ew.
    simpl. intros [= Hr <-]. eapply Hloop; eauto.
Qed.

Lemma try_categories_outcome (start_title end_title : string)
    (cats : list string) (s s' : State) (p : list string) :
  try_categories w start_title end_title cats s = (p, s') ->
  p = []
  \/ exists cat s0,
      p = [start_title; cat; end_title]
      /\ verify_path_exists w p s0 = (true, s').
Proof.
  revert s. induction cats as [|cat rest IH]; intros s.
  - simpl. unfold ret. intros [= <- <-]. now left.
  - cbn [try_categories]. unfold bind, ret.
    destruct (verify_path_exists w [start_title; cat; end_title] s)
      as [[|] s1] eqn:Ev.
    + intros [= <- <-]. right. now exists cat, s.
    + apply IH.
Qed.

(** The fall-back returns the empty path or a path through one category
    that [verify_path_exists] accepted. *)
Lemma category_fallback_outcome (start_title end_title : string)
    (s s' : State) (p : list string) :
  category_fallback w start_title end_title s = (p, s') ->
  p = []
  \/ exists cat s0,
      p = [start_title; cat; end_title]
      /\ verify_path_exists w p s0 = (true, s').
Proof.
  unfold category_fallback, bind, ret.
  destruct (get_page w start_title s) as [[sp|] s1];
    destruct (get_page w end_title s1) as [[ep|] s2];
    try (intros [= <- <-]; now left).
  destruct (categories sp); [|intros [= <- <-]; now left].
  destruct (categories ep); [|intros [= <- <-]; now left].
  apply try_categories_outcome.
Qed.

(** The ways [find_short_path] ends with a path. *)
Lemma find_short_path_inv (start_page end_page : option WikipediaPage)
    (timeout : Z) (s s' : State) (p : list string) :
  find_short_path w start_page end_page timeout s = (p, s') ->
  p <> [] ->
  exists sp ep,
    start_page = Some sp /\ end_page = Some ep
    /\ PyStr.is_empty (title sp) = false /\ PyStr.is_empty (title ep) = false
    /\ ((exists s1 s2,
            find_path_bfs w (title sp) (title ep) 6 timeout s1 = (Some p, s2)
            /\ verify_path_exists w p s2 = (true, s'))
        \/ exists cat s0,
            p = [title sp; cat; title ep]
            /\ verify_path_exists w p s0 = (true, s')).
Proof.
  unfold find_short_path.
  destruct start_page as [sp|]; [|intros [= <- <-]; contradiction].
  destruct end_page as [ep|]; [|intros [= <- <-]; contradiction].
  cbv zeta.
  destruct (PyStr.is_empty (title sp)) eqn:E1;
    [intros [= <- <-]; contradiction|].
  destruct (PyStr.is_empty (title ep)) eqn:E2;
    [intros [= <- <-]; contradiction|].
  simpl. unfold bind, ret.
  destruct (find_path_bfs w (title sp) (title ep) 6 timeout s)
    as [path s1] eqn:Eb.
  intros H Hne. exists sp, ep.
  split; [reflexivity|]. split; [reflexivity|].
  split; [assumption|]. split; [assumption|].
  assert (Hfb : forall sx,
                category_fallback w (title sp) (title ep) sx = (p, s') ->
                exists cat s0,
                  p = [title sp; cat; title ep]
                  /\ verify_path_exists w p s0 = (true, s')).
  { intros sx Hc. apply category_fallback_outcome in Hc as [->|Hc];
      [contradiction | exact Hc]. }
  destruct path as [[|x xs]|]; try (right; now apply (Hfb s1)).
  destruct (verify_path_exists w (x :: xs) s1) as [[|] s2] eqn:Ev.
  - injection H as <- <-. left. now exists s, s1.
  - right. now apply (Hfb s2).
Qed.

(** C1.  A non-empty path returned by [find_short_path] is one that
    [verify_path_exists] has just accepted: the state in which
    [find_short_path] ends is the state in which a run of
    [verify_path_exists] on that path ends with answer [True].  This holds
    for the paths of the loop, of the shortcut and of the category
    fall-back.  When that run did not flush the hot tier, asking
    [verify_path_exists] once more in the final state gives [True] again. *)
Theorem find_short_path_returns_verified
    (start_page end_page : option WikipediaPage) (timeout : Z)
    (s s' : State) (p : list string) :
  find_short_path w start_page end_page timeout s = (p, s') ->
  p <> [] ->
  exists s0,
    verify_path_exists w p s0 = (true, s')
    /\ (List.length (memory_cache s0) + List.length p <= 1001 ->
        verify_path_exists w p s' = (true, s')).
Proof.
  intros H Hne.
  destruct (find_short_path_inv _ _ _ _ _ _ H Hne)
    as (sp & ep & _ & _ & _ & _ & [(s1 & s2 & _ & Hv) | (cat & s0 & _ & Hv)]).
  - exists s2. split; [assumption|]. now apply verify_path_exists_again.
  - exists s0. split; [assumption|]. now apply verify_path_exists_again.
Qed.

(** C10.  A non-empty path returned by [find_short_path] starts with the
    title of the start page, ends with the title of the end page and has at
    most 6 elements. *)
Theorem find_short_path_endpoints
    (start_page end_page : option WikipediaPage) (timeout : Z)
    (s s' : State) (p : list string) :
  find_short_path w start_page end_page timeout s = (p, s') ->
  p <> [] ->
  exists sp ep,
    start_page = Some sp /\ end_page = Some ep
    /\ hd_error p = Some (title sp)
    /\ last p "" = title ep
    /\ List.length p <= 6.
Proof.
  intros H Hne.
  destruct (find_short_path_inv _ _ _ _ _ _ H Hne)
    as (sp & ep & -> & -> & _ & _ & [(s1 & s2 & Hb & _) | (cat & s0 & -> & _)]).
  - exists sp, ep. repeat (split; [reflexivity|]).
    apply find_path_bfs_path in Hb as (H1 & H2 & H3).
    repeat (split; [assumption|]). lia.
  - exists sp, ep. repeat (split; [reflexivity|]). simpl. lia.
Qed.

End Orchestrator.

(** C1 on a run: the path from A to C found by the loop. *)
Lemma find_short_path_returns_verified_run :
  let wd := Scenario.chain_world in
  let run := find_short_path wd Scenario.page_A Scenario.page_C 15 (fresh []) in
  fst run = ["A"; "B"; "C"]
  /\ exists s0,
      verify_path_exists wd ["A"; "B"; "C"] s0 = (true, snd run)
      /\ (List.length (memory_cache s0) + 3 <= 1001 ->
          verify_path_exists wd ["A"; "B"; "C"] (snd run) = (true, snd run)).
Proof.
  cbv zeta. split; [vm_compute; reflexivity|].
  apply (find_short_path_returns_verified
           Scenario.chain_world
           Scenario.page_A Scenario.page_C 15 (fresh []));
    [vm_compute; reflexivity | discriminate].
Defined.

(** C10 on the same run. *)
Lemma find_short_path_endpoints_run :
  let wd := Scenario.chain_world in
  let run := find_short_path wd Scenario.page_A Scenario.page_C 15 (fresh []) in
  exists sp ep,
    Scenario.page_A = Some sp /\ Scenario.page_C = Some ep
    /\ hd_error (fst run) = Some (title sp)
    /\ last (fst run) "" = title ep
    /\ List.length (fst run) <= 6.
Proof.
  cbv zeta.
  apply (find_short_path_endpoints
           Scenario.chain_world
           Scenario.page_A Scenario.page_C 15 (fresh [])
           (snd (find_short_path
                   Scenario.chain_world
                   Scenario.page_A Scenario.page_C 15 (fresh []))));
    [apply surjective_pairing | vm_compute; discriminate].
Defined.

(* ------------------------------------------------------------------ *)
(** ** Budgets of the search *)

Section Budgets.

Variable w : World.

Lemma max_nodes_value : max_nodes = 5000.
Proof. reflexivity. Qed.

(** C6.  In every run of [find_path_bfs] that reaches the loop, the loop pops
    at most 5000 items ([nodes_processed] counts them all).  A turn of the
    body whose popped item carries a path of [max_depth] elements or more
    stops at [continue]: the queue only loses that item, [visited] is as it
    was, and the state is the one left by the reading of the clock, so no
    call for the links of the item went out and nothing was appended. *)
Theorem find_path_bfs_node_budget (start_title end_title : string)
    (max_depth timeout : Z) :
  (forall s s' r f',
      find_path_bfs_run w start_title end_title max_depth timeout s
      = ((r, Some f'), s') ->
      nodes_processed f' = List.length (dequeued f')
      /\ List.length (dequeued f') <= 5000)
  /\ (forall start_time end_words f s current_title path queue',
         queue f = (current_title, path) :: queue' ->
         (max_depth <= Z.of_nat (List.length path))%Z ->
         exists o,
           bfs_iteration w start_time end_title end_words max_depth timeout f s
           = (o, tick s)
           /\ (o = Break f \/ o = Continue (popped f current_title queue'))).
Proof.
  split.
  - intros s s' r f'.
    unfold find_path_bfs_run, bind, ret, ask.
    destruct (find_direct_connection w start_title end_title (tick s))
      as [direct s1].
    assert (Hloop :
      forall res s2,
        bfs_while w (S max_nodes) (time_time w (calls s)) end_title
                  (word_set end_title) max_depth timeout
                  (bfs_setup start_title) s1 = (res, s2) ->
        snd res = f' ->
        nodes_processed f' = List.length (dequeued f')
        /\ List.length (dequeued f') <= 5000).
    { intros [res f1] s2 Hw Hf. simpl in Hf. subst f1.
      apply bfs_while_counters in Hw; [|reflexivity | simpl; lia].
      rewrite <- max_nodes_value. destruct Hw as [H1 H2]. split; lia. }
    destruct direct as [[|x xs]|].
    + destruct (bfs_while _ _ _ _ _ _ _ _ s1) as [res s2] eqn:Ew.
      simpl. intros [= _ Hf _]. eapply Hloop; eauto.
    + simpl. discriminate.
    + destruct (bfs_while _ _ _ _ _ _ _ _ s1) as [res s2] eqn:Ew.
      simpl. intros [= _ Hf _]. eapply Hloop; eauto.
  - intros start_time end_words f s current_title path queue' Hq Hd.
    rewrite bfs_iteration_unfold, Hq.
    destruct (timeout <? time_time w (calls s) - start_time)%Z.
    + exists (Break f). auto.
    + apply Z.leb_le in Hd. rewrite Hd.
      exists (Continue (popped f current_title queue')). auto.
Qed.

(** C8.  When both pages carry the same title (a named topic: pages have
    a title that is not empty), [find_short_path] returns the path made of
    that title alone, whatever the time budget; it reads the clock once and
    asks for no links. *)
Theorem find_short_path_same_title (sp ep : WikipediaPage) (timeout : Z)
    (s : State) :
  title sp = title ep -> title sp <> "" ->
  find_short_path w (Some sp) (Some ep) timeout s = ([title sp], tick s).
Proof.
  intros Heq Hne. unfold find_short_path. cbv zeta. rewrite <- Heq.
  assert (He : PyStr.is_empty (title sp) = false)
    by (destruct (title sp); [contradiction | reflexivity]).
  rewrite He. simpl.
  unfold bind, ret, find_path_bfs, find_path_bfs_run, bind, ret, ask,
    find_direct_connection.
  rewrite String.eqb_refl. reflexivity.
Qed.

(** C9, for a clock that has moved.  With a time budget of 0, when the clock
    read at the first test of the loop is later than the clock read on
    entry, the loop breaks at that test: nothing is popped and the frontier
    is the initial one.  [find_short_path] then returns the shortcut when
    [find_direct_connection] found one and [verify_path_exists] confirms it,
    and otherwise what the category fall-back returns. *)
Theorem zero_budget_breaks_at_first_test (sp ep : WikipediaPage)
    (max_depth : Z) (s s2 : State) (direct : option (list string)) :
  title sp <> "" -> title ep <> "" ->
  find_direct_connection w (title sp) (title ep) (tick s) = (direct, s2) ->
  (time_time w (calls s) < time_time w (calls s2))%Z ->
  find_path_bfs_run w (title sp) (title ep) max_depth 0 s
  = match direct with
    | Some ((_ :: _) as p) => ((Some p, None), s2)
    | _ => ((None, Some (bfs_setup (title sp))), tick s2)
    end
  /\ find_short_path w (Some sp) (Some ep) 0 s
     = match direct with
       | Some ((_ :: _) as p) =>
           let (ok, s3) := verify_path_exists w p s2 in
           if ok then (p, s3)
           else category_fallback w (title sp) (title ep) s3
       | _ => category_fallback w (title sp) (title ep) (tick s2)
       end.
Proof.
  intros Hs He Hd Hclock.
  assert (Hrun : forall depth,
    find_path_bfs_run w (title sp) (title ep) depth 0 s
    = match direct with
      | Some ((_ :: _) as p) => ((Some p, None), s2)
      | _ => ((None, Some (bfs_setup (title sp))), tick s2)
      end).
  { intros depth.
    unfold find_path_bfs_run, bind, ret, ask. cbn [fst snd]. rewrite Hd.
    assert (Hbreak :
      bfs_while w (S max_nodes) (time_time w (calls s)) (title ep)
                (word_set (title ep)) depth 0 (bfs_setup (title sp)) s2
      = ((None, bfs_setup (title sp)), tick s2)).
    { rewrite bfs_while_step. cbn [bfs_setup queue nodes_processed].
      replace (0 <? max_nodes) with true by reflexivity.
      rewrite bfs_iteration_unfold.
      replace (0 <? time_time w (calls s2) - time_time w (calls s))%Z
        with true by (symmetry; apply Z.ltb_lt; lia).
      reflexivity. }
    destruct direct as [[|x xs]|]; try reflexivity; now rewrite Hbreak. }
  split; [apply Hrun|].
  unfold find_short_path. cbv zeta.
  assert (E1 : PyStr.is_empty (title sp) = false)
    by (destruct (title sp); [contradiction | reflexivity]).
  assert (E2 : PyStr.is_empty (title ep) = false)
    by (destruct (title ep); [contradiction | reflexivity]).
  rewrite E1, E2. simpl.
  unfold bind at 1. unfold find_path_bfs, bind at 1. rewrite Hrun.
  destruct direct as [[|x xs]|]; try reflexivity.
  unfold ret, bind. simpl.
  destruct (verify_path_exists w (x :: xs) s2) as [[|] s3]; reflexivity.
Qed.

End Budgets.

(* ------------------------------------------------------------------ *)
(** ** Pruning to the ten best neighbours *)

Section Pruning.

Variable w : World.









End Pruning.

(* ------------------------------------------------------------------ *)
(** ** Runs *)

Section Runs.

Import Scenario.

(** The scores of the twelve links of the hub for the target "Solar energy". *)
Example relevance_hub :
  map (relevance (word_set "Solar energy")) hub_links
  = [1; 2; 2; 1; 3; 1; 1; 1; 1; 1; 0; 2].
Proof. reflexivity. Qed.

Example word_set_underscore :
  word_set "Solar_power  STATION" = ["solar"; "power"; "station"].
Proof. reflexivity. Qed.

(** The first turn of the loop on the hub: ten of the twelve links go in. *)
Example expansion_hub :
  fst (bfs_iteration hub_world 0 "Solar energy" (word_set "Solar energy")
                     6 15 (bfs_setup "Hub") (fresh []))
  = Continue
      (expanded (bfs_setup "Hub") "Hub" ["Hub"] []
                [ "Solar energy in Spain"; "Energy"; "Solar_power";
                  "Solar System"; "Gas"; "Oil"; "Sun"; "Wind"; "Coal";
                  "Heat" ]).
Proof. reflexivity. Qed.

(** The scenario of the chain: the loop finds A, B, C. *)
Example chain_found :
  fst (find_short_path chain_world page_A page_C 15 (fresh []))
  = ["A"; "B"; "C"].
Proof. vm_compute. reflexivity. Qed.

(** A start page without links: the frontier runs dry. *)
Example dead_end :
  fst (find_short_path chain_world page_C page_A 15 (fresh [])) = [].
Proof. vm_compute. reflexivity. Qed.

(** C6 on runs: a search that exhausts the frontier, and a turn on an item
    that sits at the depth bound. *)
Lemma find_path_bfs_node_budget_run :
  (exists f',
      snd (fst (find_path_bfs_run chain_world "A" "Z" 6 15 (fresh [])))
      = Some f'
      /\ nodes_processed f' = List.length (dequeued f')
      /\ List.length (dequeued f') <= 5000)
  /\ exists o,
      bfs_iteration chain_world 0 "Z" [] 1 15 (bfs_setup "A") (fresh [])
      = (o, tick (fresh []))
      /\ (o = Break (bfs_setup "A")
          \/ o = Continue (popped (bfs_setup "A") "A" [])).
Proof.
  destruct (find_path_bfs_node_budget chain_world "A" "Z" 6 15) as [H1 _].
  destruct (find_path_bfs_node_budget chain_world "A" "Z" 1 15) as [_ H2].
  split.
  - destruct (find_path_bfs_run chain_world "A" "Z" 6 15 (fresh []))
      as [[r [f'|]] s'] eqn:E.
    + exists f'. split; [reflexivity|]. exact (H1 _ _ _ _ E).
    + vm_compute in E. discriminate.
  - apply (H2 0%Z [] (bfs_setup "A") (fresh []) "A" ["A"] []);
      [reflexivity | simpl; lia].
Defined.


(** C8 on a run, with a budget of 0. *)
Lemma find_short_path_same_title_run :
  find_short_path chain_world page_A page_A 0 (fresh [])
  = (["A"], tick (fresh [])).
Proof.
  apply (find_short_path_same_title chain_world
           (page "A" ["B"] []) (page "A" ["B"] []) 0 (fresh []));
    [reflexivity | discriminate].
Defined.

(** Endpoints without a title are turned away by the guard on titles, with
    the empty path. *)
Lemma find_short_path_untitled :
  find_short_path chain_world untitled untitled 15 (fresh []) = ([], fresh [])
  /\ fst (find_short_path chain_world untitled untitled 15 (fresh [])) <> [""].
Proof. split; [reflexivity | discriminate]. Qed.

(** C9 on a run: no shortcut from A to C, the clock has moved, the loop
    breaks at once and the fall-back finds no common category. *)
Lemma zero_budget_breaks_at_first_test_run :
  find_path_bfs_run chain_world "A" "C" 6 0 (fresh [])
  = ((None, Some (bfs_setup "A")),
     tick (snd (find_direct_connection chain_world "A" "C" (tick (fresh [])))))
  /\ fst (find_short_path chain_world page_A page_C 0 (fresh [])) = [].
Proof.
  destruct (zero_budget_breaks_at_first_test chain_world
              (page "A" ["B"] []) (page "C" [] []) 6 (fresh [])
              (snd (find_direct_connection chain_world "A" "C" (tick (fresh []))))
              None) as [H1 H2];
    [discriminate | discriminate | reflexivity | reflexivity |].
  split; [exact H1|].
  unfold page_A, page_C. rewrite H2. reflexivity.
Defined.

(** C9 against the claim as written.  With a budget of 0:
    - when the start links to the target, the shortcut answers before the
      loop is entered, and [find_short_path] returns a path that is neither
      empty nor one the category fall-back can produce;
    - when the clock reads the same at the first test as on entry, the test
      [elapsed > 0] fails, the loop pops and expands A and B and returns the
      path it found. *)
Lemma zero_budget_not_always_empty :
  (fst (find_short_path chain_world page_A page_B 0 (fresh [])) = ["A"; "B"]
   /\ forall s1, fst (category_fallback chain_world "A" "B" s1) <> ["A"; "B"])
  /\ (fst (find_short_path still_world page_A page_C 0 (fresh []))
      = ["A"; "B"; "C"]
      /\ exists f,
          fst (find_path_bfs_run still_world "A" "C" 6 0 (fresh []))
          = (Some ["A"; "B"; "C"], Some f)
          /\ dequeued f = ["A"; "B"]).
Proof.
  split; [split|split].
  - vm_compute. reflexivity.
  - intros s1 H.
    destruct (category_fallback chain_world "A" "B" s1) as [p s'] eqn:E.
    simpl in H. subst p.
    apply category_fallback_outcome in E as [E | (cat & s0 & E & _)];
      discriminate.
  - vm_compute. reflexivity.
  - eexists. split; [vm_compute; reflexivity | reflexivity].
Qed.

End Runs.

(* ================================================================== *)
(** * Further properties of the code *)

(* ------------------------------------------------------------------ *)
(** ** What every function of the search keeps

    A property of the state that survives a reading of the clock and a call
    of [get_page_links_with_cache] survives the whole search, and the path
    returned was accepted in a state that has it. *)

Section Preservation.

Variable w : World.
Variable Inv : State -> Prop.

Hypothesis Inv_tick : forall s, Inv s -> Inv (tick s).
Hypothesis Inv_links :
  forall t s r s',
    Inv s -> get_page_links_with_cache w t s = (r, s') -> Inv s'.

Lemma get_page_ticks (name : string) (s s' : State) (r : option WikipediaPage) :
  get_page w name s = (r, s') ->
  exists n, 1 <= n <= 4 /\ s' = ticks n s.
Proof.
  unfold get_page, python_fallback, page_exact, ask, bind, ret. simpl.
  repeat match goal with
         | |- context [match ?x with _ => _ end] => destruct x
         end;
    intros [= <- <-];
    first [ exists 1; split; [lia | reflexivity]
          | exists 2; split; [lia | reflexivity]
          | exists 3; split; [lia | reflexivity]
          | exists 4; split; [lia | reflexivity] ].
Qed.

Lemma kept_ticks (n : nat) (s : State) : Inv s -> Inv (ticks n s).
Proof. intros H. induction n as [|n IH]; simpl; auto. Qed.

Lemma kept_get_page (name : string) (s s' : State) (r : option WikipediaPage) :
  Inv s -> get_page w name s = (r, s') -> Inv s'.
Proof.
  intros H Hg. apply get_page_ticks in Hg as (n & _ & ->).
  now apply kept_ticks.
Qed.

Lemma kept_verify_pairs (path : list string) (s s' : State) (b : bool) :
  Inv s -> verify_pairs w path s = (b, s') -> Inv s'.
Proof.
  revert s. induction path as [|a path IH]; intros s Hs.
  { intros [= <- <-]. assumption. }
  destruct path as [|c rest].
  { intros [= <- <-]. assumption. }
  rewrite verify_pairs_step.
  destruct (get_page_links_with_cache w a s) as [[l|] s1] eqn:Eg;
    pose proof (Inv_links _ _ _ _ Hs Eg) as Hs1.
  - destruct (PyStr.mem c l); [now apply IH | now intros [= <- <-]].
  - now intros [= <- <-].
Qed.

Lemma kept_verify_path_exists (path : list string) (s s' : State) (b : bool) :
  Inv s -> verify_path_exists w path s = (b, s') -> Inv s'.
Proof. rewrite verify_path_exists_pairs. apply kept_verify_pairs. Qed.

Lemma kept_first_valid_neighbor (start_title end_title : string)
    (common : list string) (s s' : State) (r : option (list string)) :
  Inv s ->
  first_valid_neighbor w start_title end_title common s = (r, s') ->
  Inv s'.
Proof.
  revert s. induction common as [|n rest IH]; intros s Hs.
  - simpl. unfold ret. now intros [= <- <-].
  - cbn [first_valid_neighbor]. unfold bind, ret.
    destruct (verify_path_exists w [start_title; n; end_title] s)
      as [[|] s1] eqn:Ev;
      pose proof (kept_verify_path_exists _ _ _ _ Hs Ev) as Hs1.
    + now intros [= <- <-].
    + now apply IH.
Qed.

Lemma kept_find_direct_connection (start_title end_title : string)
    (s s' : State) (r : option (list string)) :
  Inv s -> find_direct_connection w start_title end_title s = (r, s') ->
  Inv s'.
Proof.
  intros Hs. unfold find_direct_connection, bind, ret.
  destruct (String.eqb start_title end_title); [now intros [= <- <-]|].
  destruct (get_page_links_with_cache w start_title s) as [[l1|] s1] eqn:E1;
    pose proof (Inv_links _ _ _ _ Hs E1) as Hs1; [|now intros [= <- <-]].
  destruct (PyStr.mem end_title l1); [now intros [= <- <-]|].
  destruct (get_page_links_with_cache w end_title s1) as [[l2|] s2] eqn:E2;
    pose proof (Inv_links _ _ _ _ Hs1 E2) as Hs2; [|now intros [= <- <-]].
  now apply kept_first_valid_neighbor.
Qed.

Lemma kept_score_neighbors (end_title : string) (end_words vis path : list string)
    (neighbors : list string) (acc : list (string * nat)) (s s' : State)
    (scan : Scan) :
  Inv s ->
  score_neighbors w end_title end_words vis path neighbors acc s = (scan, s') ->
  Inv s'.
Proof.
  revert acc s. induction neighbors as [|n rest IH]; intros acc s Hs.
  - simpl. unfold ret. now intros [= <- <-].
  - cbn [score_neighbors]. unfold bind, ret.
    destruct (String.eqb n end_title).
    + destruct (verify_path_exists w (path ++ [n]) s) as [[|] s1] eqn:Ev;
        pose proof (kept_verify_path_exists _ _ _ _ Hs Ev) as Hs1.
      * now intros [= <- <-].
      * now apply IH.
    + now apply IH.
Qed.

Lemma kept_bfs_iteration (start_time : Z) (end_title : string)
    (end_words : list string) (max_depth timeout : Z) (f : Frontier)
    (s s' : State) (o : Outcome) :
  Inv s ->
  bfs_iteration w start_time end_title end_words max_depth timeout f s
  = (o, s') ->
  Inv s'.
Proof.
  intros Hs. rewrite bfs_iteration_unfold.
  pose proof (Inv_tick _ Hs) as Ht.
  destruct (timeout <? time_time w (calls s) - start_time)%Z;
    [now intros [= <- <-]|].
  destruct (queue f) as [|[current_title path] queue'];
    [now intros [= <- <-]|].
  destruct (max_depth <=? Z.of_nat (List.length path))%Z;
    [now intros [= <- <-]|].
  destruct (get_page_links_with_cache w current_title (tick s))
    as [[neighbors|] s2] eqn:Eg;
    pose proof (Inv_links _ _ _ _ Ht Eg) as Hs2; [|now intros [= <- <-]].
  destruct (score_neighbors w end_title end_words (visited f) path neighbors [] s2)
    as [[final_path|scored] s3] eqn:Es;
    pose proof (kept_score_neighbors _ _ _ _ _ _ _ _ _ Hs2 Es) as Hs3;
    now intros [= <- <-].
Qed.

Lemma kept_bfs_while (fuel : nat) (start_time : Z) (end_title : string)
    (end_words : list string) (max_depth timeout : Z) (f : Frontier)
    (s s' : State) (r : option (list string) * Frontier) :
  Inv s ->
  bfs_while w fuel start_time end_title end_words max_depth timeout f s
  = (r, s') ->
  Inv s'.
Proof.
  revert f s. induction fuel as [|fuel IH]; intros f s Hs.
  - simpl. unfold ret. now intros [= <- <-].
  - rewrite bfs_while_step.
    destruct (queue f); [now intros [= <- <-]|].
    destruct (nodes_processed f <? max_nodes); [|now intros [= <- <-]].
    destruct (bfs_iteration w start_time end_title end_words max_depth
                            timeout f s) as [o s1] eqn:Ei.
    pose proof (kept_bfs_iteration _ _ _ _ _ _ _ _ _ Hs Ei) as Hs1.
    destruct o as [f1|p1 f1|f1]; try (now intros [= <- <-]).
    now apply IH.
Qed.

Lemma kept_find_path_bfs (start_title end_title : string)
    (max_depth timeout : Z) (s s' : State) (r : option (list string)) :
  Inv s ->
  find_path_bfs w start_title end_title max_depth timeout s = (r, s') ->
  Inv s'.
Proof.
  intros Hs. unfold find_path_bfs, find_path_bfs_run, bind, ret, ask.
  pose proof (Inv_tick _ Hs) as Ht.
  destruct (find_direct_connection w start_title end_title (tick s))
    as [direct s1] eqn:Ed.
  pose proof (kept_find_direct_connection _ _ _ _ _ Ht Ed) as Hs1.
  assert (Hloop :
    forall res s2,
      bfs_while w (S max_nodes) (time_time w (calls s)) end_title
                (word_set end_title) max_depth timeout
                (bfs_setup start_title) s1 = (res, s2) -> Inv s2).
  { intros res s2. now apply kept_bfs_while. }
  destruct direct as [[|x xs]|].
  - destruct (bfs_while _ _ _ _ _ _ _ _ s1) as [res s2] eqn:Ew.
    simpl. intros [= _ <-]. eapply Hloop; eauto.
  - simpl. now intros [= _ <-].
  - destruct (bfs_while _ _ _ _ _ _ _ _ s1) as [res s2] eqn:Ew.
    simpl. intros [= _ <-]. eapply Hloop; eauto.
Qed.

Lemma kept_try_categories (start_title end_title : string)
    (cats : list string) (s s' : State) (p : list string) :
  Inv s ->
  try_categories w start_title end_title cats s = (p, s') ->
  Inv s'
  /\ (p <> [] -> exists s0, Inv s0 /\ verify_path_exists w p s0 = (true, s')).
Proof.
  revert s. induction cats as [|cat rest IH]; intros s Hs.
  - simpl. unfold ret. intros [= <- <-]. split; [assumption | congruence].
  - cbn [try_categories]. unfold bind, ret.
    destruct (verify_path_exists w [start_title; cat; end_title] s)
      as [[|] s1] eqn:Ev;
      pose proof (kept_verify_path_exists _ _ _ _ Hs Ev) as Hs1.
    + intros [= <- <-]. split; [assumption|]. intros _. now exists s.
    + now apply IH.
Qed.

Lemma kept_category_fallback (start_title end_title : string)
    (s s' : State) (p : list string) :
  Inv s ->
  category_fallback w start_title end_title s = (p, s') ->
  Inv s'
  /\ (p <> [] -> exists s0, Inv s0 /\ verify_path_exists w p s0 = (true, s')).
Proof.
  intros Hs. unfold category_fallback, bind, ret.
  destruct (get_page w start_title s) as [sp s1] eqn:E1.
  pose proof (kept_get_page _ _ _ _ Hs E1) as Hs1.
  destruct (get_page w end_title s1) as [ep s2] eqn:E2.
  pose proof (kept_get_page _ _ _ _ Hs1 E2) as Hs2.
  destruct sp as [sp|]; destruct ep as [ep|];
    try (intros [= <- <-]; split; [assumption | congruence]).
  destruct (categories sp);
    [|intros [= <- <-]; split; [assumption | congruence]].
  destruct (categories ep);
    [|intros [= <- <-]; split; [assumption | congruence]].
  now apply kept_try_categories.
Qed.

Lemma kept_find_short_path (start_page end_page : option WikipediaPage)
    (timeout : Z) (s s' : State) (p : list string) :
  Inv s ->
  find_short_path w start_page end_page timeout s = (p, s') ->
  Inv s'
  /\ (p <> [] -> exists s0, Inv s0 /\ verify_path_exists w p s0 = (true, s')).
Proof.
  intros Hs. unfold find_short_path.
  destruct start_page as [sp|];
    [|intros [= <- <-]; split; [assumption | congruence]].
  destruct end_page as [ep|];
    [|intros [= <- <-]; split; [assumption | congruence]].
  cbv zeta.
  destruct (PyStr.is_empty (title sp) || PyStr.is_empty (title ep));
    [intros [= <- <-]; split; [assumption | congruence]|].
  unfold bind, ret.
  destruct (find_path_bfs w (title sp) (title ep) 6 timeout s)
    as [path s1] eqn:Eb.
  pose proof (kept_find_path_bfs _ _ _ _ _ _ _ Hs Eb) as Hs1.
  destruct path as [[|x xs]|]; try (now apply kept_category_fallback).
  destruct (verify_path_exists w (x :: xs) s1) as [[|] s2] eqn:Ev;
    pose proof (kept_verify_path_exists _ _ _ _ Hs1 Ev) as Hs2.
  - intros [= <- <-]. split; [assumption|]. intros _. now exists s1.
  - now apply kept_category_fallback.
Qed.

End Preservation.

(* ------------------------------------------------------------------ *)
(** ** The tiers of the cache *)

Section Tiers.

Variable w : World.

Lemma dict_get_None_In {V : Type} (k k' : string) (v : V)
    (d : list (string * V)) :
  dict_get k d = None -> In (k', v) d -> k' <> k.
Proof.
  induction d as [|[k0 v0] d IH]; simpl; [contradiction|].
  destruct (String.eqb k k0) eqn:E; [discriminate|].
  apply String.eqb_neq in E.
  intros Hd [[= <- <-]|Hin]; [congruence | now apply IH].
Qed.

Lemma calls_ticks (n : nat) (s : State) : calls (ticks n s) = n + calls s.
Proof. induction n as [|n IH]; simpl; [reflexivity | now rewrite IH]. Qed.

(** The try block, case by case. *)
Lemma fetch_links_cases (t : string) (s s' : State) (r : Exc (list string)) :
  fetch_links w t s = (r, s') ->
  conn s' = conn s /\ calls s < calls s'
  /\ ((r = Ok [] /\ memory_cache s' = dict_set t [] (memory_cache s)
       /\ pages s' = pages s)
      \/ (exists raw,
             dict_get t (pages s) = Some raw
             /\ r = Ok (filter_links t raw)
             /\ memory_cache s'
                = dict_set t (filter_links t raw) (trim_oldest (memory_cache s))
             /\ pages s' = pages s)
      \/ (exists raw,
             dict_get t (pages s) = None
             /\ r = Ok (filter_links t raw)
             /\ memory_cache s'
                = dict_set t (filter_links t raw) (trim_oldest (memory_cache s))
             /\ (pages s' = pages s \/ pages s' = dict_set t raw (pages s)))).
Proof.
  unfold fetch_links, bind, ret, db_select.
  destruct (select_ok w (calls s)).
  2: { unfold memory_put. intros [= <- <-]. simpl.
       split; [reflexivity|]. split; [lia|]. left. auto. }
  destruct (dict_get t (pages s)) as [raw|] eqn:Hd.
  { unfold filter_and_store, bind, ret, memory_trim, memory_put.
    intros [= <- <-]. simpl. split; [reflexivity|]. split; [lia|].
    right. left. exists raw. auto. }
  destruct (get_page w t (tick s)) as [[page|] s1] eqn:Hp;
    destruct (get_page_frame _ _ _ _ _ Hp) as (Hf1 & Hf2 & Hf3);
    assert (Hcalls : calls s < calls s1)
      by (apply get_page_ticks in Hp as (n & _ & ->);
          rewrite calls_ticks; simpl; lia);
    simpl in *.
  2: { unfold memory_put. intros [= <- <-]. simpl.
       rewrite Hf1, Hf2, Hf3. split; [reflexivity|]. split; [lia|].
       left. auto. }
  unfold db_insert, filter_and_store, bind, ret, memory_trim, memory_put.
  destruct (insert_ok w (calls s1)); intros [= <- <-]; simpl;
    rewrite Hf1, Hf2, Hf3; (split; [reflexivity|]); (split; [lia|]);
    right; right; exists (raw_links page); auto.
Qed.

(** A call of [get_page_links_with_cache], case by case. *)
Lemma links_cases (t : string) (s s' : State) (r : Exc (list string)) :
  get_page_links_with_cache w t s = (r, s') ->
  (s' = s
   /\ ((PyStr.is_empty t = true /\ r = Ok [])
       \/ exists l,
           PyStr.is_empty t = false
           /\ dict_get t (memory_cache s) = Some l /\ r = Ok l))
  \/ (PyStr.is_empty t = false
      /\ dict_get t (memory_cache s) = None
      /\ (conn s = true -> conn s' = true) /\ calls s <= calls s'
      /\ ((r = Raise /\ memory_cache s' = memory_cache s
           /\ pages s' = pages s)
          \/ (r = Ok [] /\ memory_cache s' = dict_set t [] (memory_cache s)
              /\ pages s' = pages s)
          \/ (exists raw,
                 dict_get t (pages s) = Some raw
                 /\ r = Ok (filter_links t raw)
                 /\ memory_cache s'
                    = dict_set t (filter_links t raw)
                               (trim_oldest (memory_cache s))
                 /\ pages s' = pages s)
          \/ (exists raw,
                 dict_get t (pages s) = None
                 /\ r = Ok (filter_links t raw)
                 /\ memory_cache s'
                    = dict_set t (filter_links t raw)
                               (trim_oldest (memory_cache s))
                 /\ (pages s' = pages s
                     \/ pages s' = dict_set t raw (pages s))))).
Proof.
  unfold get_page_links_with_cache.
  destruct (PyStr.is_empty t) eqn:He.
  { intros [= <- <-]. left. auto. }
  destruct (dict_get t (memory_cache s)) as [l|] eqn:Hm.
  { intros [= <- <-]. left. split; [reflexivity|]. right. now exists l. }
  intros H. right. split; [reflexivity|]. split; [reflexivity|].
  revert H. unfold bind, ret, get_db_connection.
  destruct (conn s) eqn:Hc.
  { intros H. apply fetch_links_cases in H as (H1 & H2 & H3).
    split; [congruence|]. split; [lia|]. right. exact H3. }
  destruct (sqlite_connect w (calls s)).
  - intros H. apply fetch_links_cases in H as (H1 & H2 & H3). simpl in *.
    split; [congruence|]. split; [lia|]. right. exact H3.
  - intros [= <- <-]. simpl. split; [discriminate|]. split; [lia|].
    left. auto.
  - intros [= <- <-]. simpl. split; [reflexivity|]. split; [lia|].
    left. auto.
Qed.

Lemma rows_kept_refl (s : State) : rows_kept s s.
Proof. unfold rows_kept. auto. Qed.

Lemma rows_kept_trans (s1 s2 s3 : State) :
  rows_kept s1 s2 -> rows_kept s2 s3 -> rows_kept s1 s3.
Proof.
  unfold rows_kept. intros (A1 & B1 & C1) (A2 & B2 & C2).
  split; [auto|]. split; [auto | lia].
Qed.

Lemma rows_kept_tick (s0 s : State) : rows_kept s0 s -> rows_kept s0 (tick s).
Proof.
  unfold rows_kept. simpl. intros (A & B & C). split; [auto|].
  split; [auto | lia].
Qed.

Lemma links_rows_kept (t : string) (s s' : State) (r : Exc (list string)) :
  get_page_links_with_cache w t s = (r, s') ->
  rows_kept s s'
  /\ (forall k, k <> t -> dict_get k (pages s') = dict_get k (pages s)).
Proof.
  intros H. apply links_cases in H.
  destruct H as [[-> _] | (He & Hm & Hc & Hn & H)].
  { split; [apply rows_kept_refl | reflexivity]. }
  assert (Hsame : pages s' = pages s ->
                  rows_kept s s'
                  /\ (forall k, k <> t ->
                                dict_get k (pages s') = dict_get k (pages s))).
  { intros E. unfold rows_kept. rewrite E. auto. }
  destruct H as [(_ & _ & E) | [(_ & _ & E)
                | [(raw & _ & _ & _ & E) | (raw & Hd & _ & _ & [E|E])]]];
    try (now apply Hsame).
  unfold rows_kept. rewrite E. split; [split; [|auto]|].
  - intros k v Hk. rewrite dict_get_set_other; [assumption|].
    intros ->. congruence.
  - intros k Hk. now apply dict_get_set_other.
Qed.

Lemma links_hot_filtered (t : string) (s s' : State) (r : Exc (list string)) :
  hot_filtered s ->
  get_page_links_with_cache w t s = (r, s') ->
  hot_filtered s' /\ (forall l, r = Ok l -> reference_list t l).
Proof.
  intros Hwf H. apply links_cases in H.
  destruct H as [[-> [(_ & ->) | (l & _ & Hl & ->)]] | (He & Hm & _ & _ & H)].
  - split; [assumption|]. intros l [= <-] x [].
  - split; [assumption|]. intros l' [= <-].
    apply (Hwf t l). now apply dict_get_In.
  - assert (Hstore : forall raw,
              memory_cache s'
              = dict_set t (filter_links t raw) (trim_oldest (memory_cache s)) ->
              hot_filtered s').
    { intros raw Hc k v Hin. rewrite Hc in Hin.
      apply dict_set_In in Hin as [[= -> ->] | Hin].
      - apply filter_links_reference_list.
      - apply Hwf. now apply trim_oldest_In. }
    destruct H as [(-> & Hc & _) | [(-> & Hc & _)
                  | [(raw & _ & -> & Hc & _) | (raw & _ & -> & Hc & _)]]].
    + split; [|discriminate]. intros k v. rewrite Hc. apply Hwf.
    + split; [|intros l [= <-] x []].
      intros k v Hin. rewrite Hc in Hin.
      apply dict_set_In in Hin as [[= -> ->] | Hin];
        [intros x [] | now apply Hwf].
    + split; [now apply (Hstore raw)|].
      intros l [= <-]. apply filter_links_reference_list.
    + split; [now apply (Hstore raw)|].
      intros l [= <-]. apply filter_links_reference_list.
Qed.

Lemma links_tiers_agree (t : string) (s s' : State) (r : Exc (list string)) :
  tiers_agree s ->
  get_page_links_with_cache w t s = (r, s') ->
  tiers_agree s'.
Proof.
  intros Hag H. apply links_cases in H.
  destruct H as [[-> _] | (He & Hm & _ & _ & H)]; [assumption|].
  destruct H as [(_ & Hc & Hp) | [(_ & Hc & Hp)
                | [(raw & Hd & _ & Hc & Hp) | (raw & Hd & _ & Hc & Hp)]]].
  - intros k v row. rewrite Hc, Hp. apply Hag.
  - intros k v row Hin Hrow. rewrite Hc in Hin. rewrite Hp in Hrow.
    apply dict_set_In in Hin as [[= -> ->] | Hin]; [now left | eauto].
  - intros k v row Hin Hrow. rewrite Hc in Hin. rewrite Hp in Hrow.
    apply dict_set_In in Hin as [[= -> ->] | Hin].
    + right. congruence.
    + apply trim_oldest_In in Hin. eauto.
  - intros k v row Hin Hrow. rewrite Hc in Hin.
    apply dict_set_In in Hin as [[= -> ->] | Hin].
    + destruct Hp as [Hp|Hp]; rewrite Hp in Hrow.
      * congruence.
      * rewrite dict_get_set_same in Hrow. right. congruence.
    + apply trim_oldest_In in Hin.
      pose proof (dict_get_None_In _ _ _ _ Hm Hin) as Hne.
      destruct Hp as [Hp|Hp]; rewrite Hp in Hrow.
      * eauto.
      * rewrite dict_get_set_other in Hrow by assumption. eauto.
Qed.

Lemma tiers_agree_tick (s : State) : tiers_agree s -> tiers_agree (tick s).
Proof. trivial. Qed.

Lemma hot_filtered_tick (s : State) : hot_filtered s -> hot_filtered (tick s).
Proof. trivial. Qed.

(** X1.  A call of [get_page_links_with_cache] never changes or removes a
    row of the table [pages]: every row that was there is there with the
    same links, and no name other than the one asked for gains a row.  It
    never gives up a connection that the thread holds. *)
Theorem durable_rows_write_once (t : string) (s : State) :
  rows_kept s (snd (get_page_links_with_cache w t s))
  /\ (forall k, k <> t ->
        dict_get k (pages (snd (get_page_links_with_cache w t s)))
        = dict_get k (pages s)).
Proof.
  apply (links_rows_kept t s _ (fst (get_page_links_with_cache w t s))).
  apply surjective_pairing.
Qed.

(** X2.  The same holds of a whole search: between the state in which
    [find_short_path] starts and the state in which it ends, rows of the
    table are only added, a held connection stays held and calls to the
    outside are only counted up. *)
Theorem find_short_path_rows_kept
    (start_page end_page : option WikipediaPage) (timeout : Z) (s : State) :
  rows_kept s (snd (find_short_path w start_page end_page timeout s)).
Proof.
  destruct (find_short_path w start_page end_page timeout s) as [p s'] eqn:E.
  apply (kept_find_short_path w (rows_kept s)) in E as [H _].
  - exact H.
  - intros s1. apply rows_kept_tick.
  - intros t0 s1 r s2 H1 Hg. eapply rows_kept_trans; [exact H1|].
    now apply (links_rows_kept t0 s1 s2 r).
  - apply rows_kept_refl.
Qed.

(** X3.  Where the table has a row for a name, the hot entry of that name is
    the filter of that row, or the empty list left by a failed fetch.  A
    call of [get_page_links_with_cache] keeps this, and so does a whole
    search. *)
Theorem tiers_stay_in_agreement (s : State) :
  tiers_agree s ->
  (forall t, tiers_agree (snd (get_page_links_with_cache w t s)))
  /\ (forall start_page end_page timeout,
         tiers_agree (snd (find_short_path w start_page end_page timeout s))).
Proof.
  intros Hag. split.
  - intros t.
    apply (links_tiers_agree t s _ (fst (get_page_links_with_cache w t s)) Hag).
    apply surjective_pairing.
  - intros start_page end_page timeout.
    destruct (find_short_path w start_page end_page timeout s) as [p s'] eqn:E.
    apply (kept_find_short_path w tiers_agree) in E as [H _]; auto.
    + intros t0 s1 r s2. apply links_tiers_agree.
Qed.

Lemma accepted_regular_hops (path : list string) (s s' : State) :
  hot_filtered s ->
  verify_pairs w path s = (true, s') ->
  regular_hops path.
Proof.
  revert s. induction path as [|a path IH]; intros s Hs.
  { intros _ i Hi. simpl in Hi. lia. }
  destruct path as [|b rest].
  { intros _ i Hi. simpl in Hi. lia. }
  rewrite verify_pairs_step.
  destruct (get_page_links_with_cache w a s) as [[l|] s1] eqn:Eg;
    [|discriminate].
  destruct (links_hot_filtered _ _ _ _ Hs Eg) as [Hs1 Hl].
  destruct (PyStr.mem b l) eqn:Hb; [|discriminate].
  intros Hv [|i] Hi.
  - simpl. apply mem_In in Hb. now apply (Hl l eq_refl b).
  - apply (IH s1 Hs1 Hv i). simpl in *. lia.
Qed.

(** X4.  When every entry of the hot tier is a filtered list (as in a fresh
    process), every step of a path returned by [find_short_path] leads to a
    title other than the one it leaves, and to a title that
    [is_regular_page] accepts: only the start of a path can be a page that
    the filter rejects. *)
Theorem find_short_path_regular_hops
    (start_page end_page : option WikipediaPage) (timeout : Z)
    (s s' : State) (p : list string) :
  hot_filtered s ->
  find_short_path w start_page end_page timeout s = (p, s') ->
  regular_hops p.
Proof.
  intros Hs E.
  destruct p as [|x xs]; [intros i Hi; simpl in Hi; lia|].
  apply (kept_find_short_path w hot_filtered) in E as [_ H]; auto.
  - destruct (H ltac:(discriminate)) as (s0 & Hs0 & Hv).
    rewrite verify_path_exists_pairs in Hv.
    now apply (accepted_regular_hops _ s0 s').
  - intros t0 s1 r s2 H1 Hg. now apply (links_hot_filtered t0 s1 s2 r).
Qed.

End Tiers.

(* ------------------------------------------------------------------ *)
(** ** Validation and shortcut, further *)

Section Validation.

Variable w : World.

Lemma verify_pairs_join (l1 : list string) (x : string) (l2 : list string)
    (s : State) :
  verify_pairs w (l1 ++ x :: l2) s
  = let (ok, s1) := verify_pairs w (l1 ++ [x]) s in
    if ok then verify_pairs w (x :: l2) s1 else (false, s1).
Proof.
  revert s. induction l1 as [|a l1 IH]; intros s.
  - reflexivity.
  - destruct l1 as [|b rest].
    + change (([a] ++ x :: l2)) with (a :: x :: l2).
      change ([a] ++ [x]) with [a; x].
      rewrite !verify_pairs_step.
      destruct (get_page_links_with_cache w a s) as [[l|] s1];
        [|reflexivity].
      destruct (PyStr.mem x l); reflexivity.
    + change ((a :: b :: rest) ++ x :: l2) with (a :: b :: (rest ++ x :: l2)).
      change ((a :: b :: rest) ++ [x]) with (a :: b :: (rest ++ [x])).
      rewrite !verify_pairs_step.
      destruct (get_page_links_with_cache w a s) as [[l|] s1];
        [|reflexivity].
      destruct (PyStr.mem b l); [|reflexivity].
      apply (IH s1).
Qed.

(** X5.  Checking a path that passes through [x] is checking the part up to
    [x] and then, in the state this leaves and only when it was accepted,
    the part from [x] on.  So a path is accepted only if each of its
    prefixes is. *)
Theorem verify_path_exists_join (l1 : list string) (x : string)
    (l2 : list string) (s : State) :
  verify_path_exists w (l1 ++ x :: l2) s
  = let (ok, s1) := verify_path_exists w (l1 ++ [x]) s in
    if ok then verify_path_exists w (x :: l2) s1 else (false, s1).
Proof.
  rewrite !verify_path_exists_pairs.
  rewrite verify_pairs_join.
  destruct (verify_pairs w (l1 ++ [x]) s) as [[|] s1]; [|reflexivity].
  now rewrite verify_path_exists_pairs.
Qed.

(** X6.  A direct link is always found.  When the two pages carry different
    non-empty titles and the list obtained for the start title holds the
    end title, [find_short_path] returns the two-element path, whatever the
    time budget and the clock, after one reading of the clock and that one
    fetch. *)
Theorem find_short_path_direct_link (sp ep : WikipediaPage) (timeout : Z)
    (s s1 : State) (l : list string) :
  title sp <> "" -> title ep <> "" -> title sp <> title ep ->
  get_page_links_with_cache w (title sp) (tick s) = (Ok l, s1) ->
  In (title ep) l ->
  find_short_path w (Some sp) (Some ep) timeout s
  = ([title sp; title ep], s1).
Proof.
  intros Hs He Hne Hg Hin.
  assert (E1 : PyStr.is_empty (title sp) = false)
    by (destruct (title sp); [contradiction | reflexivity]).
  assert (E2 : PyStr.is_empty (title ep) = false)
    by (destruct (title ep); [contradiction | reflexivity]).
  assert (Hhit : get_page_links_with_cache w (title sp) s1 = (Ok l, s1)).
  { apply cache_hit; [assumption|].
    now apply (cache_holds_answer w (title sp) l (tick s) s1). }
  unfold find_short_path. cbv zeta. rewrite E1, E2. simpl.
  unfold bind at 1. unfold find_path_bfs, find_path_bfs_run, bind, ret, ask.
  cbn [fst snd]. unfold find_direct_connection, bind, ret.
  apply String.eqb_neq in Hne. rewrite Hne, Hg.
  apply mem_In in Hin. rewrite Hin. cbn [fst].
  rewrite verify_path_exists_pairs, verify_pairs_step, Hhit, Hin.
  reflexivity.
Qed.

(** X7.  The time budget, for any budget.  When the clock read at the first
    test of the loop exceeds the clock read on entry by more than [timeout],
    [find_path_bfs] pops nothing: it returns the shortcut when there is one
    and [None] otherwise, and the frontier is the one it set up. *)
Theorem find_path_bfs_out_of_time (start_title end_title : string)
    (max_depth timeout : Z) (s s2 : State) (direct : option (list string)) :
  find_direct_connection w start_title end_title (tick s) = (direct, s2) ->
  (timeout < time_time w (calls s2) - time_time w (calls s))%Z ->
  find_path_bfs_run w start_title end_title max_depth timeout s
  = match direct with
    | Some ((_ :: _) as p) => ((Some p, None), s2)
    | _ => ((None, Some (bfs_setup start_title)), tick s2)
    end.
Proof.
  intros Hd Hclock.
  unfold find_path_bfs_run, bind, ret, ask. cbn [fst snd]. rewrite Hd.
  assert (Hbreak :
    bfs_while w (S max_nodes) (time_time w (calls s)) end_title
              (word_set end_title) max_depth timeout (bfs_setup start_title) s2
    = ((None, bfs_setup start_title), tick s2)).
  { rewrite bfs_while_step. cbn [bfs_setup queue nodes_processed].
    replace (0 <? max_nodes) with true by reflexivity.
    rewrite bfs_iteration_unfold.
    replace (timeout <? time_time w (calls s2) - time_time w (calls s))%Z
      with true by (symmetry; apply Z.ltb_lt; lia).
    reflexivity. }
  destruct direct as [[|x xs]|]; try reflexivity; now rewrite Hbreak.
Qed.

(** X8.  The size of the hot tier.  A call of [get_page_links_with_cache]
    adds at most one entry.  When there were at most 1001 entries and the
    call returns a list that is not empty, there are at most 1001 after it:
    the flush of the oldest half comes before every store of a filtered
    list.  (The empty list that records a failed fetch is stored without
    that flush.) *)
Theorem hot_tier_growth (t : string) (s s' : State) (r : Exc (list string)) :
  get_page_links_with_cache w t s = (r, s') ->
  List.length (memory_cache s') <= S (List.length (memory_cache s))
  /\ (List.length (memory_cache s) <= 1001 ->
      (exists x l, r = Ok (x :: l)) ->
      List.length (memory_cache s') <= 1001).
Proof.
  intros H. apply links_cases in H.
  destruct H as [[-> _] | (He & Hm & _ & _ & H)]; [split; [lia | auto]|].
  assert (Htrim : List.length (trim_oldest (memory_cache s))
                  <= List.length (memory_cache s)
                  /\ (List.length (memory_cache s) <= 1001 ->
                      List.length (trim_oldest (memory_cache s)) <= 1000)).
  { unfold trim_oldest.
    destruct (1000 <? List.length (memory_cache s)) eqn:E.
    - rewrite length_skipn. lia.
    - apply Nat.ltb_ge in E. lia. }
  destruct Htrim as [Ht1 Ht2].
  destruct H as [(-> & -> & _) | [(-> & -> & _)
                | [(raw & _ & -> & -> & _) | (raw & _ & -> & -> & _)]]].
  - split; [lia|]. intros _ (x & l & [=]).
  - split; [apply dict_set_length|]. intros _ (x & l & [=]).
  - split.
    + etransitivity; [apply dict_set_length | lia].
    + intros Hlen _. etransitivity; [apply dict_set_length|].
      specialize (Ht2 Hlen). lia.
  - split.
    + etransitivity; [apply dict_set_length | lia].
    + intros Hlen _. etransitivity; [apply dict_set_length|].
      specialize (Ht2 Hlen). lia.
Qed.

End Validation.

(* ------------------------------------------------------------------ *)
(** ** What the loop keeps of its frontier *)

Section FrontierInvariant.

Variable w : World.
Variable P : Frontier -> Prop.

Hypothesis P_popped :
  forall f c p q, queue f = (c, p) :: q -> P f -> P (popped f c q).
Hypothesis P_expanded :
  forall f c p q top,
    queue f = (c, p) :: q -> P f -> P (expanded f c p q top).

Lemma frontier_kept_iteration (start_time : Z) (end_title : string)
    (end_words : list string) (max_depth timeout : Z) (f : Frontier)
    (s s' : State) (o : Outcome) :
  P f ->
  bfs_iteration w start_time end_title end_words max_depth timeout f s
  = (o, s') ->
  match o with
  | Break f' | Return _ f' | Continue f' => P f'
  end.
Proof.
  intros Hf H. apply bfs_iteration_inv in H.
  destruct H as [[-> _] | (c & p & q & Hq & _ & H)]; [assumption|].
  destruct H as [(_ & -> & _) | [(_ & _ & ->)
                | (_ & n & s2 & _ & [(-> & _) | ->])]];
    eauto.
Qed.

Lemma frontier_kept_while (fuel : nat) (start_time : Z) (end_title : string)
    (end_words : list string) (max_depth timeout : Z) (f f' : Frontier)
    (s s' : State) (r : option (list string)) :
  P f ->
  bfs_while w fuel start_time end_title end_words max_depth timeout f s
  = ((r, f'), s') ->
  P f'.
Proof.
  revert f s. induction fuel as [|fuel IH]; intros f s Hf.
  - simpl. unfold ret. now intros [= <- <- <-].
  - rewrite bfs_while_step.
    destruct (queue f); [now intros [= <- <- <-]|].
    destruct (nodes_processed f <? max_nodes); [|now intros [= <- <- <-]].
    destruct (bfs_iteration w start_time end_title end_words max_depth
                            timeout f s) as [o s1] eqn:Ei.
    pose proof (frontier_kept_iteration _ _ _ _ _ _ _ _ _ Hf Ei) as Ho.
    destruct o as [f1|p1 f1|f1]; try (now intros [= <- <- <-]).
    now apply IH.
Qed.

Lemma frontier_kept_run (start_title end_title : string)
    (max_depth timeout : Z) (s s' : State) (r : option (list string))
    (f' : Frontier) :
  P (bfs_setup start_title) ->
  find_path_bfs_run w start_title end_title max_depth timeout s
  = ((r, Some f'), s') ->
  P f'.
Proof.
  intros H0. unfold find_path_bfs_run, bind, ret, ask.
  destruct (find_direct_connection w start_title end_title (tick s))
    as [direct s1].
  assert (Hloop :
    forall res s2,
      bfs_while w (S max_nodes) (time_time w (calls s)) end_title
                (word_set end_title) max_depth timeout
                (bfs_setup start_title) s1 = (res, s2) ->
      snd res = f' -> P f').
  { intros [res f1] s2 Hw Hf. simpl in Hf. subst f1.
    now apply (frontier_kept_while _ _ _ _ _ _ _ _ _ _ _ H0 Hw). }
  destruct direct as [[|x xs]|].
  - destruct (bfs_while _ _ _ _ _ _ _ _ s1) as [res s2] eqn:Ew.
    simpl. intros [= _ Hf _]. eapply Hloop; eauto.
  - simpl. discriminate.
  - destruct (bfs_while _ _ _ _ _ _ _ _ s1) as [res s2] eqn:Ew.
    simpl. intros [= _ Hf _]. eapply Hloop; eauto.
Qed.

End FrontierInvariant.

Section FrontierFacts.

Variable w : World.

Lemma frontier_ok_popped (start_title : string) (f : Frontier) (c : string)
    (p : list string) (q : list (string * list string)) :
  queue f = (c, p) :: q -> frontier_ok start_title f ->
  frontier_ok start_title (popped f c q).
Proof.
  intros Hq (Hnd & Hvis & Hpaths).
  assert (Ht : frontier_titles (popped f c q) = frontier_titles f).
  { unfold frontier_titles, popped. simpl. rewrite Hq. simpl.
    now rewrite <- app_assoc. }
  split; [|split].
  - now rewrite Ht.
  - intros t. rewrite Ht. apply Hvis.
  - intros t path Hin. apply Hpaths. rewrite Hq. now right.
Qed.

Lemma frontier_ok_expanded (start_title : string) (f : Frontier) (c : string)
    (p : list string) (q : list (string * list string)) (top : list string) :
  queue f = (c, p) :: q -> frontier_ok start_title f ->
  frontier_ok start_title (expanded f c p q top).
Proof.
  intros Hq (Hnd & Hvis & Hpaths).
  assert (Ht : frontier_titles (expanded f c p q top)
               = frontier_titles f ++ newly_seen top (visited f)).
  { unfold frontier_titles, expanded. simpl. rewrite Hq. simpl.
    rewrite map_app, map_map. simpl. rewrite map_id.
    now rewrite <- !app_assoc. }
  split; [|split].
  - rewrite Ht. apply NoDup_app; [assumption | apply newly_seen_NoDup|].
    intros x Hx Hx'. apply newly_seen_In in Hx' as [_ Hx']. auto.
  - intros t. rewrite Ht. unfold expanded. simpl.
    intros Hin. apply in_or_app. apply in_app_or in Hin as [Hin|Hin].
    + right. auto.
    + left. now apply in_rev in Hin.
  - unfold expanded. simpl. intros t path Hin.
    apply in_app_or in Hin as [Hin|Hin].
    + apply Hpaths. rewrite Hq. now right.
    + apply in_map_iff in Hin as (n & [= <- <-] & _).
      split; [apply last_last|].
      apply hd_error_app_one. apply (Hpaths c p). rewrite Hq. now left.
Qed.

Lemma frontier_ok_setup (start_title : string) :
  frontier_ok start_title (bfs_setup start_title).
Proof.
  split; [|split].
  - unfold frontier_titles. simpl. constructor; [intros [] | constructor].
  - unfold frontier_titles. simpl. tauto.
  - simpl. intros t path [[= <- <-]|[]]. auto.
Qed.

Lemma sorted_le_app (l1 l2 : list nat) :
  StronglySorted le l1 -> StronglySorted le l2 ->
  (forall a b, In a l1 -> In b l2 -> a <= b) ->
  StronglySorted le (l1 ++ l2).
Proof.
  intros H1 H2 H. induction H1 as [|x l1 H1 IH Hx]; simpl; [assumption|].
  constructor.
  - apply IH. intros a b Ha. apply H. now right.
  - rewrite Forall_forall in *. intros y Hy.
    apply in_app_or in Hy as [Hy|Hy]; [auto | apply H; simpl; auto].
Qed.

Lemma sorted_le_constant (n : nat) (l : list nat) :
  (forall x, In x l -> x = n) -> StronglySorted le l.
Proof.
  induction l as [|y l IH]; intros H; constructor.
  - apply IH. intros x Hx. apply H. now right.
  - rewrite Forall_forall. intros x Hx.
    rewrite (H y), (H x); simpl; auto.
Qed.

Lemma layered_popped (f : Frontier) (c : string) (p : list string)
    (q : list (string * list string)) :
  queue f = (c, p) :: q -> layered f -> layered (popped f c q).
Proof.
  unfold layered, queue_lengths. intros Hq. rewrite Hq. simpl.
  intros [Hs Hb]. inversion Hs as [|x l Hs' Hx]; subst.
  split; [assumption|].
  intros n Hn. destruct q as [|[c' p'] q']; [contradiction|]. simpl in *.
  rewrite Forall_forall in Hx.
  specialize (Hx (List.length p') ltac:(now left)).
  specialize (Hb n ltac:(now right)). lia.
Qed.

Lemma layered_expanded (f : Frontier) (c : string) (p : list string)
    (q : list (string * list string)) (top : list string) :
  queue f = (c, p) :: q -> layered f -> layered (expanded f c p q top).
Proof.
  unfold layered, queue_lengths. intros Hq. rewrite Hq. simpl.
  intros [Hs Hb]. inversion Hs as [|x l Hs' Hx]; subst.
  rewrite Forall_forall in Hx.
  rewrite map_app, map_map. simpl.
  set (old := map (fun item : string * list string => List.length (snd item)) q)
    in *.
  set (new := map (fun n : string => List.length (p ++ [n]))
                  (newly_seen top (visited f))).
  assert (Hnew : forall n, In n new -> n = S (List.length p)).
  { intros n Hn. apply in_map_iff in Hn as (y & <- & _).
    rewrite length_app. simpl. lia. }
  split.
  - apply sorted_le_app; [assumption | now apply (sorted_le_constant _ _ Hnew)|].
    intros a b Ha Hb'. rewrite (Hnew b Hb').
    specialize (Hb a ltac:(now right)). lia.
  - intros n Hn.
    assert (Hn' : List.length p <= n <= S (List.length p)).
    { apply in_app_or in Hn as [Hn|Hn].
      - split; [now apply Hx | apply Hb; now right].
      - rewrite (Hnew n Hn). lia. }
    assert (Hhd : List.length p <= hd 0 (old ++ new)).
    { destruct old as [|o old'] eqn:Eo.
      - destruct new as [|m new'] eqn:En; [contradiction|]. simpl.
        rewrite (Hnew m); [lia | now left].
      - simpl. apply Hx. now left. }
    lia.
Qed.

Lemma layered_setup (start_title : string) : layered (bfs_setup start_title).
Proof.
  unfold layered, queue_lengths. simpl. split.
  - repeat constructor.
  - intros n [<-|[]]. lia.
Qed.

(** X9.  In a search, no title is put in the queue twice: the titles popped
    and the titles still waiting when the loop ends are all different, each
    of them is marked in [visited], and each waiting item carries a path
    that starts at the start title and ends at the item's own title. *)
Theorem bfs_handles_each_title_once (start_title end_title : string)
    (max_depth timeout : Z) (s s' : State) (r : option (list string))
    (f' : Frontier) :
  find_path_bfs_run w start_title end_title max_depth timeout s
  = ((r, Some f'), s') ->
  NoDup (dequeued f' ++ map fst (queue f'))
  /\ (forall t, In t (dequeued f' ++ map fst (queue f')) -> In t (visited f'))
  /\ (forall t path,
         In (t, path) (queue f') ->
         last path "" = t /\ hd_error path = Some start_title).
Proof.
  intros H.
  apply (frontier_kept_run w (frontier_ok start_title)) in H.
  - exact H.
  - intros f c p q. apply frontier_ok_popped.
  - intros f c p q top. apply frontier_ok_expanded.
  - apply frontier_ok_setup.
Qed.

(** X10.  The queue is handled breadth first: when the loop ends, the paths
    that still wait are in the order of rising length, and the longest is at
    most one step longer than the one at the head. *)
Theorem bfs_queue_layered (start_title end_title : string)
    (max_depth timeout : Z) (s s' : State) (r : option (list string))
    (f' : Frontier) :
  find_path_bfs_run w start_title end_title max_depth timeout s
  = ((r, Some f'), s') ->
  StronglySorted le (queue_lengths f')
  /\ (forall n, In n (queue_lengths f') -> n <= S (hd 0 (queue_lengths f'))).
Proof.
  intros H.
  apply (frontier_kept_run w layered) in H.
  - exact H.
  - intros f c p q. apply layered_popped.
  - intros f c p q top. apply layered_expanded.
  - apply layered_setup.
Qed.

End FrontierFacts.

(* ------------------------------------------------------------------ *)
(** ** Ranking and filtering, further *)

Section Ranking.

Local Open Scope string_scope.

Lemma same_key_le (x a b : string * nat) :
  same_key x a = true -> same_key x b = true -> key_le a b = true.
Proof.
  unfold same_key, key_le. rewrite !andb_true_iff, !Nat.eqb_eq.
  intros [H1 H2] [H3 H4]. rewrite H1, H2, H3, H4.
  rewrite Nat.eqb_refl, Nat.leb_refl. apply orb_true_r.
Qed.

Lemma insert_by_key_stable (k x : string * nat) (l : list (string * nat)) :
  filter (same_key k) (insert_by_key x l) = filter (same_key k) (x :: l).
Proof.
  induction l as [|y l IH]; [reflexivity|].
  cbn [insert_by_key]. destruct (key_le x y) eqn:E; [reflexivity|].
  cbn [filter] in *. rewrite IH.
  destruct (same_key k x) eqn:Ex; destruct (same_key k y) eqn:Ey;
    try reflexivity.
  rewrite (same_key_le k x y Ex Ey) in E. discriminate.
Qed.

(** X11.  The sort of the scored neighbours is the stable sort by the key
    [(-score, len(name))], as [list.sort] is: the result holds the same
    items, in the order of the keys, and items with the same key keep the
    order they had in the list of references. *)
Theorem sort_by_key_stable (l : list (string * nat)) :
  Permutation (sort_by_key l) l
  /\ StronglySorted (fun a b => key_le a b = true) (sort_by_key l)
  /\ (forall k, filter (same_key k) (sort_by_key l) = filter (same_key k) l).
Proof.
  split; [apply sort_by_key_perm|]. split; [apply sort_by_key_sorted|].
  intros k. induction l as [|x l IH]; [reflexivity|].
  cbn [sort_by_key]. rewrite insert_by_key_stable. cbn [filter].
  now rewrite IH.
Qed.

(** X12.  The score of a neighbour is at most one more than the number of
    words of the target, and at most one more than the number of its own
    words. *)
Theorem relevance_bounded (end_title neighbor : string) :
  relevance (word_set end_title) neighbor
  <= S (Nat.min (List.length (word_set end_title))
                (List.length (word_set neighbor))).
Proof.
  unfold relevance.
  set (shared := filter (fun x => PyStr.mem x (word_set end_title))
                        (word_set neighbor)).
  assert (H1 : List.length shared <= List.length (word_set neighbor))
    by apply filter_length_le.
  assert (H2 : List.length shared <= List.length (word_set end_title)).
  { apply NoDup_incl_length.
    - apply NoDup_filter. apply NoDup_nodup.
    - intros x Hx. apply filter_In in Hx as [_ Hx]. now apply mem_In. }
  destruct (List.length (PyStr.split neighbor) <=? 4)%nat; lia.
Qed.

Lemma lower_char_idem (c : ascii) :
  PyStr.lower_char (PyStr.lower_char c) = PyStr.lower_char c.
Proof.
  destruct c as [[] [] [] [] [] [] [] []]; vm_compute; reflexivity.
Qed.

Lemma is_space_lower_char (c : ascii) :
  PyStr.is_space (PyStr.lower_char c) = PyStr.is_space c.
Proof.
  destruct c as [[] [] [] [] [] [] [] []]; vm_compute; reflexivity.
Qed.

Lemma lower_idem (s : string) : PyStr.lower (PyStr.lower s) = PyStr.lower s.
Proof.
  induction s as [|c s IH]; simpl; [reflexivity|].
  now rewrite lower_char_idem, IH.
Qed.

Lemma lower_is_empty (s : string) :
  PyStr.is_empty (PyStr.lower s) = PyStr.is_empty s.
Proof. destruct s; reflexivity. Qed.

Lemma split_from_lower (cur s : string) :
  PyStr.split_from (PyStr.lower cur) (PyStr.lower s)
  = map PyStr.lower (PyStr.split_from cur s).
Proof.
  revert cur. induction s as [|c s IH]; intros cur.
  - destruct cur; reflexivity.
  - cbn [PyStr.lower PyStr.split_from]. rewrite is_space_lower_char.
    destruct (PyStr.is_space c).
    + pose proof (IH EmptyString) as IH0.
      change (PyStr.lower EmptyString) with EmptyString in IH0.
      destruct cur; cbn [PyStr.lower map]; rewrite IH0; reflexivity.
    + rewrite <- IH. f_equal. rewrite lower_app. reflexivity.
Qed.

Lemma split_lower (s : string) :
  PyStr.split (PyStr.lower s) = map PyStr.lower (PyStr.split s).
Proof. apply (split_from_lower EmptyString s). Qed.

Lemma word_set_lower (t : string) : word_set (PyStr.lower t) = word_set t.
Proof. unfold word_set. now rewrite lower_idem. Qed.

(** X13.  The score does not look at the case of letters: putting the
    target, the neighbour or both in lower case leaves it as it is. *)
Theorem relevance_ignores_case (end_title neighbor : string) :
  relevance (word_set (PyStr.lower end_title)) neighbor
  = relevance (word_set end_title) neighbor
  /\ relevance (word_set end_title) (PyStr.lower neighbor)
     = relevance (word_set end_title) neighbor
  /\ relevance (word_set (PyStr.lower end_title)) (PyStr.lower neighbor)
     = relevance (word_set end_title) neighbor.
Proof.
  unfold relevance.
  rewrite !word_set_lower, split_lower, length_map. auto.
Qed.

(** X14.  The tests of [is_regular_page] on markers and on the beginning of
    the name do not look at the case of letters; the test on the length is
    made on the name as it is given.  So a name and its lower-case form are
    accepted or rejected together whenever they have the same length. *)
Theorem is_regular_page_ignores_case (name : string) :
  String.length (PyStr.lower name) = String.length name ->
  is_regular_page (PyStr.lower name) = is_regular_page name.
Proof.
  intros Hlen. unfold is_regular_page.
  now rewrite lower_is_empty, lower_idem, Hlen.
Qed.

Lemma contains_occurs (t s : string) :
  PyStr.contains t s = true <-> exists pre post, s = pre ++ t ++ post.
Proof.
  split; [apply contains_inv|]. intros (pre & post & ->). apply contains_app.
Qed.

Lemma startswith_begins (p s : string) :
  PyStr.startswith p s = true <-> exists rest, s = p ++ rest.
Proof.
  split; [apply startswith_inv|]. intros (rest & ->). apply startswith_app.
Qed.

(** X15.  What [is_regular_page] accepts, exactly: the names that are not
    empty, have at most 150 characters, and whose lower-case form holds no
    marker of the black list and begins with neither "list of" nor
    "index of". *)
Theorem is_regular_page_accepts (name : string) :
  is_regular_page name = true <->
  name <> ""
  /\ String.length name <= 150
  /\ (forall marker pre post,
         In marker meta_blacklist ->
         PyStr.lower name <> pre ++ marker ++ post)
  /\ (forall rest, PyStr.lower name <> "list of" ++ rest)
  /\ (forall rest, PyStr.lower name <> "index of" ++ rest).
Proof.
  unfold is_regular_page. split.
  - destruct (PyStr.is_empty name) eqn:He; [discriminate|]. cbv zeta.
    destruct (existsb _ meta_blacklist) eqn:Eb; [discriminate|].
    destruct (PyStr.startswith "list of" (PyStr.lower name)) eqn:E1;
      [discriminate|].
    destruct (PyStr.startswith "index of" (PyStr.lower name)) eqn:E2;
      [discriminate|].
    destruct (150 <? String.length name)%nat eqn:E3; [discriminate|].
    intros _. split; [intros ->; discriminate|].
    split; [apply Nat.ltb_ge in E3; lia|].
    split; [|split].
    + intros marker pre post Hin Heq.
      assert (existsb (fun term => PyStr.contains term (PyStr.lower name))
                      meta_blacklist = true); [|congruence].
      apply existsb_exists. exists marker. split; [assumption|].
      apply contains_occurs. now exists pre, post.
    + intros rest Heq.
      assert (PyStr.startswith "list of" (PyStr.lower name) = true);
        [|congruence].
      apply startswith_begins. now exists rest.
    + intros rest Heq.
      assert (PyStr.startswith "index of" (PyStr.lower name) = true);
        [|congruence].
      apply startswith_begins. now exists rest.
  - intros (Hne & Hlen & Hmark & Hl & Hi).
    destruct (PyStr.is_empty name) eqn:He;
      [destruct name; [contradiction | discriminate]|].
    cbv zeta.
    destruct (existsb _ meta_blacklist) eqn:Eb.
    { apply existsb_exists in Eb as (marker & Hin & Hc).
      apply contains_occurs in Hc as (pre & post & Hc).
      now destruct (Hmark marker pre post Hin). }
    destruct (PyStr.startswith "list of" (PyStr.lower name)) eqn:E1.
    { apply startswith_begins in E1 as (rest & E1). now destruct (Hl rest). }
    destruct (PyStr.startswith "index of" (PyStr.lower name)) eqn:E2.
    { apply startswith_begins in E2 as (rest & E2). now destruct (Hi rest). }
    simpl. apply Nat.ltb_ge in Hlen. now rewrite Hlen.
Qed.

End Ranking.

(* ------------------------------------------------------------------ *)
(** ** [get_page] *)

Section GetPage.

Variable w : World.

(** X16.  [get_page] asks the outside between one and four times and
    changes nothing else: the hot tier, the table and the connection are
    as they were. *)
Theorem get_page_only_asks (name : string) (s : State) :
  exists n,
    1 <= n <= 4
    /\ snd (get_page w name s) = ticks n s
    /\ memory_cache (snd (get_page w name s)) = memory_cache s
    /\ pages (snd (get_page w name s)) = pages s
    /\ conn (snd (get_page w name s)) = conn s
    /\ calls (snd (get_page w name s)) = n + calls s.
Proof.
  destruct (get_page w name s) as [r s'] eqn:E. cbn [snd].
  destruct (get_page_frame _ _ _ _ _ E) as (H1 & H2 & H3).
  apply get_page_ticks in E as (n & Hn & ->).
  exists n. repeat (split; [assumption|]).
  split; [reflexivity|]. repeat (split; [assumption|]).
  apply calls_ticks.
Qed.

(** X17.  Where the page of [get_page] comes from.  A page found under the
    very name is returned at once.  Every page returned is the answer of
    [wikipedia.page] for the name itself, for the first result of the
    search for the name, or for "Python (programming language)": so the
    title of the page may differ from the name asked for.  [None] is
    returned only when the last call, for the Python page, failed. *)
Theorem get_page_provenance (name : string) (s : State) :
  (forall p, wikipedia_page w (calls s) name = PageFound p ->
             get_page w name s = (Some p, tick s))
  /\ (forall p s',
         get_page w name s = (Some p, s') ->
         exists i q,
           calls s <= i < calls s'
           /\ wikipedia_page w i q = PageFound p
           /\ (q = name \/ q = python_page
               \/ exists rest,
                   wikipedia_search w (S (calls s)) name = Ok (q :: rest)))
  /\ (forall s',
         get_page w name s = (None, s') ->
         3 <= calls s' - calls s
         /\ forall p,
             wikipedia_page w (pred (calls s')) python_page <> PageFound p).
Proof.
  split; [|split].
  - intros p Hp. unfold get_page, page_exact, ask, bind, ret.
    now rewrite Hp.
  - intros p s'.
    unfold get_page, python_fallback, page_exact, ask, bind, ret. simpl.
    repeat match goal with
           | |- context [match ?x with _ => _ end] => destruct x eqn:?
           end;
      intros [= <- <-];
      (eexists _, _; split; [|split]; [|eassumption|];
       [simpl; lia
       | first [ left; reflexivity
               | right; left; reflexivity
               | right; right; eexists; eassumption ]]).
  - intros s'.
    unfold get_page, python_fallback, page_exact, ask, bind, ret. simpl.
    repeat match goal with
           | |- context [match ?x with _ => _ end] => destruct x eqn:?
           end;
      intros [= <-]; cbn [calls tick pred];
      (split; [lia|]); intros p Hp; cbn [calls tick] in *; congruence.
Qed.

End GetPage.

(* ------------------------------------------------------------------ *)
(** ** [get_page_links_cached] *)

Section LruCache.

Variable w : World.

Lemma dict_remove_length {V : Type} (k : string) (v : V)
    (d : list (string * V)) :
  dict_get k d = Some v -> S (List.length (dict_remove k d)) = List.length d.
Proof.
  induction d as [|[k' v'] d IH]; simpl; [discriminate|].
  destruct (String.eqb k k'); [reflexivity|].
  intros H. simpl. now rewrite IH.
Qed.

Lemma dict_remove_In {V : Type} (k : string) (x : string * V)
    (d : list (string * V)) :
  In x (dict_remove k d) -> In x d.
Proof.
  induction d as [|[k' v'] d IH]; simpl; [trivial|].
  destruct (String.eqb k k'); [now right|].
  intros [H|H]; [now left | right; now apply IH].
Qed.

Lemma dict_remove_keys {V : Type} (k : string) (d : list (string * V)) :
  NoDup (map fst d) ->
  NoDup (map fst (dict_remove k d)) /\ ~ In k (map fst (dict_remove k d)).
Proof.
  induction d as [|[k' v'] d IH]; simpl; intros Hnd.
  - split; [constructor | tauto].
  - inversion Hnd as [|x l Hx Hnd']; subst.
    destruct (String.eqb k k') eqn:E.
    + apply String.eqb_eq in E. subst k'. auto.
    + apply String.eqb_neq in E. destruct (IH Hnd') as [H1 H2].
      split.
      * simpl. constructor; [|assumption].
        intros Hin. apply Hx. apply in_map_iff in Hin as (y & <- & Hy).
        apply in_map. now apply (dict_remove_In k).
      * simpl. intros [H|H]; [congruence | contradiction].
Qed.

Lemma dict_get_missing {V : Type} (k : string) (d : list (string * V)) :
  dict_get k d = None <-> ~ In k (map fst d).
Proof.
  induction d as [|[k' v'] d IH]; simpl; [tauto|].
  destruct (String.eqb k k') eqn:E.
  - apply String.eqb_eq in E. subst. split; [discriminate | tauto].
  - apply String.eqb_neq in E. rewrite IH. split.
    + intros H [H'|H']; [congruence | contradiction].
    + tauto.
Qed.

Lemma dict_get_last {V : Type} (k : string) (v : V) (d : list (string * V)) :
  dict_get k d = None -> dict_get k (d ++ [(k, v)]) = Some v.
Proof.
  induction d as [|[k' v'] d IH]; simpl.
  - now rewrite String.eqb_refl.
  - destruct (String.eqb k k'); [discriminate | assumption].
Qed.

Lemma keys_snoc (k : string) (v : list string)
    (d : list (string * list string)) :
  NoDup (map fst d) -> ~ In k (map fst d) ->
  NoDup (map fst (d ++ [(k, v)])).
Proof.
  intros Hnd Hk. rewrite map_app. simpl.
  apply NoDup_app; [assumption | constructor; [intros [] | constructor]|].
  intros a Ha [<-|[]]. contradiction.
Qed.

Lemma keys_tl (d : list (string * list string)) (k : string) :
  NoDup (map fst d) -> ~ In k (map fst d) ->
  NoDup (map fst (tl d)) /\ ~ In k (map fst (tl d)).
Proof.
  destruct d as [|x d]; simpl; [auto|].
  intros Hnd Hk. inversion Hnd; subst. tauto.
Qed.

(** X18.  The dict of the [lru_cache] keeps its keys distinct and never
    holds more than 2000 entries. *)
Theorem get_page_links_cached_bounded (page_name : string) (c : Cached) :
  NoDup (map fst (lru c)) ->
  List.length (lru c) <= 2000 ->
  NoDup (map fst (lru (snd (get_page_links_cached w page_name c))))
  /\ List.length (lru (snd (get_page_links_cached w page_name c))) <= 2000.
Proof.
  intros Hnd Hlen. unfold get_page_links_cached.
  destruct (dict_get page_name (lru c)) as [links|] eqn:Hd.
  - cbn [snd lru].
    destruct (dict_remove_keys page_name (lru c) Hnd) as [H1 H2].
    split; [now apply keys_snoc|].
    rewrite length_app. simpl.
    pose proof (dict_remove_length _ _ _ Hd). lia.
  - apply dict_get_missing in Hd.
    destruct (get_page_links_with_cache w page_name (inner c)) as [[links|] s'];
      cbn [snd lru]; [|auto].
    unfold lru_maxsize.
    destruct (List.length (lru c) <? 2000) eqn:E.
    + apply Nat.ltb_lt in E.
      split; [now apply keys_snoc|]. rewrite length_app. simpl. lia.
    + destruct (keys_tl _ _ Hnd Hd) as [H1 H2].
      split; [now apply keys_snoc|]. rewrite length_app. simpl.
      destruct (lru c); simpl in *; lia.
Qed.

(** X19.  What [get_page_links_cached] has returned for a name it returns
    again at the next call for that name, without a call of the function it
    wraps: the inner state is untouched, whatever the outside would answer
    by then. *)
Theorem get_page_links_cached_repeat (w' : World) (page_name : string)
    (c c1 : Cached) (links : list string) :
  NoDup (map fst (lru c)) ->
  get_page_links_cached w page_name c = (Ok links, c1) ->
  fst (get_page_links_cached w' page_name c1) = Ok links
  /\ inner (snd (get_page_links_cached w' page_name c1)) = inner c1.
Proof.
  intros Hnd H.
  assert (Hhit : dict_get page_name (lru c1) = Some links).
  { unfold get_page_links_cached in H.
    destruct (dict_get page_name (lru c)) as [l|] eqn:Hd.
    - injection H as <- <-. cbn [lru].
      apply dict_get_last. apply dict_get_missing.
      now apply dict_remove_keys.
    - destruct (get_page_links_with_cache w page_name (inner c))
        as [[l|] s']; [|discriminate].
      injection H as <- <-. cbn [lru].
      apply dict_get_last. apply dict_get_missing.
      apply dict_get_missing in Hd.
      destruct (List.length (lru c) <? lru_maxsize); [assumption|].
      now apply keys_tl. }
  unfold get_page_links_cached. rewrite Hhit. auto.
Qed.

End LruCache.

(* ------------------------------------------------------------------ *)
(** ** The verdict of a round *)

Section Round.

(** X20.  The verdict of a round is fair: with the two paths exchanged the
    verdict is the mirrored one.  A side that found no path never wins, and
    of two paths found the longer one wins. *)
Theorem winner_fair (computer_path user_path : list string) :
  winner user_path computer_path = mirror (winner computer_path user_path)
  /\ (computer_path = [] ->
      winner computer_path user_path <> ComputerWins
      /\ winner computer_path user_path <> ComputerByDefault)
  /\ (computer_path <> [] -> user_path <> [] ->
      List.length user_path < List.length computer_path ->
      winner computer_path user_path = ComputerWins).
Proof.
  split; [|split].
  - unfold winner.
    destruct computer_path as [|a c], user_path as [|b u]; try reflexivity.
    destruct (List.length (b :: u) <? List.length (a :: c)) eqn:E1;
      destruct (List.length (a :: c) <? List.length (b :: u)) eqn:E2;
      try reflexivity.
    apply Nat.ltb_lt in E1, E2. lia.
  - intros ->. destruct user_path; simpl; split; discriminate.
  - intros Hc Hu Hlt. unfold winner.
    destruct computer_path as [|a c]; [contradiction|].
    destruct user_path as [|b u]; [contradiction|].
    apply Nat.ltb_lt in Hlt. now rewrite Hlt.
Qed.

End Round.

(* ------------------------------------------------------------------ *)
(** ** The shortcut through a common neighbour, and raising *)

Section Shortcut.

Variable w : World.

Lemma first_valid_neighbor_member (start_title end_title : string)
    (common : list string) (s s' : State) (p : list string) :
  first_valid_neighbor w start_title end_title common s = (Some p, s') ->
  exists n,
    In n common /\ p = [start_title; n; end_title]
    /\ exists s0, verify_path_exists w p s0 = (true, s').
Proof.
  revert s. induction common as [|n rest IH]; intros s.
  - simpl. unfold ret. discriminate.
  - cbn [first_valid_neighbor]. unfold bind, ret.
    destruct (verify_path_exists w [start_title; n; end_title] s)
      as [[|] s1] eqn:Ev.
    + intros [= <- <-]. exists n. split; [now left|].
      split; [reflexivity | now exists s].
    + intros H. destruct (IH _ H) as (m & Hm & Hp & Hv).
      exists m. split; [now right | auto].
Qed.

Lemma first_valid_neighbor_none (start_title end_title : string) (s : State) :
  first_valid_neighbor w start_title end_title [] s = (None, s).
Proof. reflexivity. Qed.

(** X21.  The two-hop shortcut.  When the start does not link to the end,
    [find_direct_connection] looks among the references of the start for
    those that are also references {e of the end}; a path it returns goes
    through one of the first three of them and was accepted by
    [verify_path_exists]; when the two lists share no name it returns
    [None] after the two fetches. *)
Theorem find_direct_connection_two_hops (start_title end_title : string)
    (s s1 s2 s' : State) (l1 l2 : list string) (r : option (list string)) :
  start_title <> end_title ->
  get_page_links_with_cache w start_title s = (Ok l1, s1) ->
  ~ In end_title l1 ->
  get_page_links_with_cache w end_title s1 = (Ok l2, s2) ->
  find_direct_connection w start_title end_title s = (r, s') ->
  (forall p, r = Some p ->
             exists n,
               p = [start_title; n; end_title]
               /\ In n (firstn 3 (filter (fun x => PyStr.mem x l2) l1))
               /\ In n l1 /\ In n l2
               /\ exists s0, verify_path_exists w p s0 = (true, s'))
  /\ ((forall n, In n l1 -> ~ In n l2) -> r = None /\ s' = s2).
Proof.
  intros Hne H1 Hnot H2.
  unfold find_direct_connection, bind, ret.
  apply String.eqb_neq in Hne. rewrite Hne, H1.
  apply mem_false in Hnot. rewrite Hnot, H2.
  intros H. split.
  - intros p ->. apply first_valid_neighbor_member in H as (n & Hn & Hp & Hv).
    exists n. split; [assumption|]. split; [assumption|].
    assert (Hf : In n (filter (fun x => PyStr.mem x l2) l1)).
    { rewrite <- (firstn_skipn 3 (filter _ l1)). apply in_or_app. now left. }
    apply filter_In in Hf as [Hf1 Hf2]. apply mem_In in Hf2. auto.
  - intros Hdisj.
    assert (Hnil : filter (fun x => PyStr.mem x l2) l1 = []).
    { destruct (filter (fun x => PyStr.mem x l2) l1) as [|x xs] eqn:E;
        [reflexivity|].
      assert (Hx : In x (filter (fun x => PyStr.mem x l2) l1))
        by (rewrite E; now left).
      apply filter_In in Hx as [Hx1 Hx2]. apply mem_In in Hx2.
      now destruct (Hdisj x Hx1). }
    rewrite Hnil in H. simpl in H. unfold ret in H.
    injection H as <- <-. auto.
Qed.

(** X22.  With a connection held by the thread, as it is in the thread that
    imported the module, [get_page_links_with_cache] never raises: every
    failure below it comes back as a list, and the connection is still held
    afterwards. *)
Theorem links_never_raise_when_connected (t : string) (s : State) :
  conn s = true ->
  (exists l, fst (get_page_links_with_cache w t s) = Ok l)
  /\ conn (snd (get_page_links_with_cache w t s)) = true.
Proof.
  intros Hc.
  destruct (get_page_links_with_cache w t s) as [r s'] eqn:E. cbn [fst snd].
  split.
  - unfold get_page_links_with_cache in E.
    destruct (PyStr.is_empty t); [injection E as <- _; eauto|].
    destruct (dict_get t (memory_cache s)) as [l|];
      [injection E as <- _; eauto|].
    unfold bind, ret, get_db_connection in E. rewrite Hc in E.
    apply fetch_links_cases in E as (_ & _ & E).
    destruct E as [(-> & _) | [(raw & _ & -> & _) | (raw & _ & -> & _)]];
      eauto.
  - apply links_rows_kept in E as [(_ & H & _) _]. auto.
Qed.

End Shortcut.

(* ------------------------------------------------------------------ *)
(** ** Finding the target, and finding nothing *)

Section Target.

Variable w : World.

Lemma score_neighbors_target (end_title : string)
    (end_words vis path neighbors : list string) (acc : list (string * nat))
    (s s' : State) :
  In end_title neighbors ->
  verify_path_exists w (path ++ [end_title]) s = (true, s') ->
  score_neighbors w end_title end_words vis path neighbors acc s
  = (Found (path ++ [end_title]), s').
Proof.
  intros Hin Hv. revert acc.
  induction neighbors as [|n rest IH]; intros acc; [contradiction|].
  cbn [score_neighbors]. unfold bind, ret.
  destruct (String.eqb n end_title) eqn:En.
  - apply String.eqb_eq in En. subst n. now rewrite Hv.
  - apply String.eqb_neq in En.
    destruct Hin as [Hin|Hin]; [contradiction|]. now apply IH.
Qed.

Lemma bfs_while_empty (fuel : nat) (start_time : Z) (end_title : string)
    (end_words : list string) (max_depth timeout : Z) (f : Frontier)
    (s : State) :
  queue f = [] ->
  bfs_while w fuel start_time end_title end_words max_depth timeout f s
  = ((None, f), s).
Proof.
  intros Hq. destruct fuel as [|fuel]; [reflexivity|].
  rewrite bfs_while_step. now rewrite Hq.
Qed.

(** X23.  A turn of the loop that is not out of time, pops an item below
    the depth bound and finds the target among the references of its title
    returns the path of the item extended by the target, as soon as
    [verify_path_exists] accepts that path; nothing is put in the queue. *)
Theorem expansion_finds_target (start_time : Z) (end_title : string)
    (end_words : list string) (max_depth timeout : Z) (f : Frontier)
    (s s2 s3 : State) (current_title : string) (path : list string)
    (queue' : list (string * list string)) (neighbors : list string) :
  queue f = (current_title, path) :: queue' ->
  (time_time w (calls s) - start_time <= timeout)%Z ->
  (Z.of_nat (List.length path) < max_depth)%Z ->
  get_page_links_with_cache w current_title (tick s) = (Ok neighbors, s2) ->
  In end_title neighbors ->
  verify_path_exists w (path ++ [end_title]) s2 = (true, s3) ->
  bfs_iteration w start_time end_title end_words max_depth timeout f s
  = (Return (path ++ [end_title]) (popped f current_title queue'), s3).
Proof.
  intros Hq Ht Hd Hg Hin Hv.
  rewrite bfs_iteration_unfold, Hq.
  replace (timeout <? time_time w (calls s) - start_time)%Z with false
    by (symmetry; apply Z.ltb_ge; lia).
  replace (max_depth <=? Z.of_nat (List.length path))%Z with false
    by (symmetry; apply Z.leb_gt; lia).
  rewrite Hg.
  now rewrite (score_neighbors_target _ _ _ _ _ _ _ _ Hin Hv).
Qed.

(** X24.  A start without references.  When the list obtained for the start
    title is empty, the end title is another one, and the hot tier is not
    about to be flushed, [find_path_bfs] returns [None]: there is no
    shortcut, and the loop has nothing to put in the queue. *)
Theorem find_path_bfs_dead_end (start_title end_title : string)
    (max_depth timeout : Z) (s s1 : State) :
  start_title <> end_title ->
  start_title <> "" ->
  List.length (memory_cache s) < 1000 ->
  get_page_links_with_cache w start_title (tick s) = (Ok [], s1) ->
  fst (find_path_bfs w start_title end_title max_depth timeout s) = None.
Proof.
  intros Hne Hs Hlen Hg.
  assert (He : PyStr.is_empty start_title = false)
    by (destruct start_title; [contradiction | reflexivity]).
  pose proof (cache_holds_answer w _ _ _ _ He Hg) as Hhot1.
  destruct (cache_keeps_entries w start_title _ (tick s) s1
              ltac:(simpl; lia) Hg) as [_ Hlen1].
  simpl in Hlen1.
  unfold find_path_bfs, find_path_bfs_run, bind, ret, ask. cbn [fst snd].
  unfold find_direct_connection, bind, ret.
  apply String.eqb_neq in Hne. rewrite Hne, Hg. cbn [PyStr.mem existsb].
  destruct (get_page_links_with_cache w end_title s1) as [r2 s2] eqn:Eg2.
  destruct (cache_keeps_entries w end_title _ s1 s2 ltac:(lia) Eg2)
    as [Hkeep _].
  pose proof (Hkeep _ _ Hhot1) as Hhot2.
  assert (Hloop :
    fst (fst (bfs_while w (S max_nodes) (time_time w (calls s)) end_title
                        (word_set end_title) max_depth timeout
                        (bfs_setup start_title) s2)) = None).
  { rewrite bfs_while_step. cbn [bfs_setup queue nodes_processed].
    replace (0 <? max_nodes) with true by reflexivity.
    rewrite bfs_iteration_unfold. cbn [bfs_setup queue visited].
    destruct (timeout <? time_time w (calls s2) - time_time w (calls s))%Z;
      [reflexivity|].
    destruct (max_depth <=? Z.of_nat (List.length [start_title]))%Z.
    { now rewrite bfs_while_empty. }
    rewrite (cache_hit w start_title [] (tick s2) He Hhot2).
    cbn [score_neighbors]. unfold ret.
    now rewrite bfs_while_empty. }
  destruct r2 as [l2|].
  - cbn [filter firstn first_valid_neighbor]. unfold ret.
    destruct (bfs_while _ _ _ _ _ _ _ _ s2) as [[r f'] s3].
    exact Hloop.
  - destruct (bfs_while _ _ _ _ _ _ _ _ s2) as [[r f'] s3].
    exact Hloop.
Qed.

End Target.

(* ------------------------------------------------------------------ *)
(** ** Runs of the further properties *)

Section MoreRuns.

Import Scenario.

(** X1 on a run: the row of "B" survives a fetch of "A". *)
Lemma durable_rows_write_once_run :
  dict_get "B" (pages (snd (get_page_links_with_cache chain_world "A"
                              (fresh [("B", ["C"])]))))
  = Some ["C"].
Proof.
  destruct (durable_rows_write_once chain_world "A" (fresh [("B", ["C"])]))
    as [_ H].
  rewrite (H "B"); [reflexivity | discriminate].
Defined.

(** X3 on a run from a fresh process. *)
Lemma tiers_stay_in_agreement_run :
  tiers_agree (snd (find_short_path chain_world page_A page_C 15 (fresh []))).
Proof.
  assert (H0 : tiers_agree (fresh [])) by (intros k v row []).
  destruct (tiers_stay_in_agreement chain_world (fresh []) H0) as [_ H].
  apply H.
Defined.

(** X4 on the path from A to C. *)
Lemma find_short_path_regular_hops_run : regular_hops ["A"; "B"; "C"].
Proof.
  apply (find_short_path_regular_hops chain_world page_A page_C 15 (fresh [])
           (snd (find_short_path chain_world page_A page_C 15 (fresh []))));
    [intros k v [] | vm_compute; reflexivity].
Defined.

(** X6 on a run, with an empty budget. *)
Lemma find_short_path_direct_link_run :
  fst (find_short_path chain_world page_A page_B 0 (fresh [])) = ["A"; "B"].
Proof.
  unfold page_A, page_B.
  rewrite (find_short_path_direct_link chain_world
             (page "A" ["B"] []) (page "B" ["C"] []) 0 (fresh [])
             (snd (get_page_links_with_cache chain_world "A" (tick (fresh []))))
             ["B"]);
    [reflexivity | discriminate | discriminate | discriminate
     | reflexivity | simpl; tauto].
Defined.

(** X7 on a run, with a budget of 2 ticks. *)
Lemma find_path_bfs_out_of_time_run :
  fst (find_path_bfs_run chain_world "A" "C" 6 2 (fresh []))
  = (None, Some (bfs_setup "A")).
Proof.
  rewrite (find_path_bfs_out_of_time chain_world "A" "C" 6 2 (fresh [])
             (snd (find_direct_connection chain_world "A" "C" (tick (fresh []))))
             None);
    [reflexivity | reflexivity | reflexivity].
Defined.

(** X8 on a run. *)
Lemma hot_tier_growth_run :
  List.length (memory_cache (snd (get_page_links_with_cache chain_world "A"
                                    (fresh []))))
  <= 1001.
Proof.
  destruct (hot_tier_growth chain_world "A" (fresh [])
              (snd (get_page_links_with_cache chain_world "A" (fresh [])))
              (Ok ["B"]) eq_refl) as [_ H].
  apply H; [simpl; lia | now exists "B", []].
Defined.

(** X9 and X10 on a search that finds nothing. *)
Lemma bfs_handles_each_title_once_run :
  exists f',
    snd (fst (find_path_bfs_run chain_world "A" "Z" 6 15 (fresh []))) = Some f'
    /\ NoDup (dequeued f' ++ map fst (queue f')).
Proof.
  destruct (find_path_bfs_run chain_world "A" "Z" 6 15 (fresh []))
    as [[r [f'|]] s'] eqn:E.
  - exists f'. split; [reflexivity|].
    now destruct (bfs_handles_each_title_once chain_world _ _ _ _ _ _ _ _ E).
  - vm_compute in E. discriminate.
Defined.

Lemma bfs_queue_layered_run :
  exists f',
    snd (fst (find_path_bfs_run chain_world "A" "Z" 6 15 (fresh []))) = Some f'
    /\ StronglySorted le (queue_lengths f').
Proof.
  destruct (find_path_bfs_run chain_world "A" "Z" 6 15 (fresh []))
    as [[r [f'|]] s'] eqn:E.
  - exists f'. split; [reflexivity|].
    now destruct (bfs_queue_layered chain_world _ _ _ _ _ _ _ _ E).
  - vm_compute in E. discriminate.
Defined.

(** X17 on runs: a name that is found, and a name for which neither the
    search nor the Python page gives anything. *)
Lemma get_page_provenance_run :
  get_page chain_world "A" (fresh []) = (Some (page "A" ["B"] []), tick (fresh []))
  /\ forall p, wikipedia_page chain_world 3 python_page <> PageFound p.
Proof.
  destruct (get_page_provenance chain_world "A" (fresh [])) as [H1 _].
  destruct (get_page_provenance chain_world "Nowhere" (fresh []))
    as (_ & _ & H3).
  split; [apply H1; reflexivity|].
  apply (H3 (ticks 4 (fresh []))). reflexivity.
Defined.

(** X18 and X19 on a cold cache. *)
Lemma get_page_links_cached_bounded_run :
  List.length (lru (snd (get_page_links_cached chain_world "A" cold))) <= 2000.
Proof.
  apply (get_page_links_cached_bounded chain_world "A" cold);
    [constructor | simpl; lia].
Defined.

Lemma get_page_links_cached_repeat_run :
  fst (get_page_links_cached still_world "A"
         (snd (get_page_links_cached chain_world "A" cold)))
  = Ok ["B"].
Proof.
  apply (get_page_links_cached_repeat chain_world still_world "A" cold
           (snd (get_page_links_cached chain_world "A" cold)) ["B"]);
    [constructor | reflexivity].
Defined.

(** X14 on a title. *)
Lemma is_regular_page_ignores_case_run :
  is_regular_page "albert einstein" = is_regular_page "Albert Einstein".
Proof.
  apply (is_regular_page_ignores_case "Albert Einstein"). reflexivity.
Defined.

(** X20 on a round: three hops against two. *)
Lemma winner_fair_run :
  winner ["A"; "B"; "C"; "D"] ["A"; "B"; "C"] = ComputerWins.
Proof.
  destruct (winner_fair ["A"; "B"; "C"; "D"] ["A"; "B"; "C"]) as (_ & _ & H).
  apply H; [discriminate | discriminate | simpl; lia].
Defined.

(** X21 on the triangle: from A to C through B. *)
Lemma find_direct_connection_two_hops_run :
  exists n,
    fst (find_direct_connection triangle_world "A" "C" (fresh []))
    = Some ["A"; n; "C"]
    /\ In n ["B"].
Proof.
  destruct (find_direct_connection_two_hops triangle_world "A" "C" (fresh [])
              (snd (get_page_links_with_cache triangle_world "A" (fresh [])))
              (snd (get_page_links_with_cache triangle_world "C"
                      (snd (get_page_links_with_cache triangle_world "A"
                              (fresh [])))))
              (snd (find_direct_connection triangle_world "A" "C" (fresh [])))
              ["B"] ["B"] (Some ["A"; "B"; "C"]))
    as [H _];
    [discriminate | reflexivity | simpl; intros [H|[]]; discriminate
     | reflexivity | reflexivity |].
  destruct (H _ eq_refl) as (n & Hp & _ & Hn & _).
  exists n. split; [|exact Hn].
  injection Hp as <-. reflexivity.
Defined.

(** X22 on a run: a thread that holds a connection. *)
Lemma links_never_raise_when_connected_run :
  exists l,
    fst (get_page_links_with_cache chain_world "A"
           (set_conn true (fresh []))) = Ok l.
Proof.
  now destruct (links_never_raise_when_connected chain_world "A"
                  (set_conn true (fresh [])) eq_refl).
Defined.

End MoreRuns.

Section TargetRuns.

Import Scenario.

(** X23 on the chain: the turn that pops B finds C. *)
Lemma expansion_finds_target_run :
  exists s3,
    bfs_iteration chain_world 0 "C" (word_set "C") 6 15
      {| queue := [("B", ["A"; "B"])]; visited := ["B"; "A"];
         nodes_processed := 1; dequeued := ["A"] |}
      (fresh [])
    = (Return ["A"; "B"; "C"]
         (popped {| queue := [("B", ["A"; "B"])]; visited := ["B"; "A"];
                    nodes_processed := 1; dequeued := ["A"] |} "B" []),
       s3).
Proof.
  eexists.
  apply (expansion_finds_target chain_world 0 "C" (word_set "C") 6 15 _
           (fresh [])
           (snd (get_page_links_with_cache chain_world "B" (tick (fresh []))))
           _ "B" ["A"; "B"] [] ["C"]);
    [reflexivity | simpl; lia | simpl; lia | reflexivity | simpl; tauto
     | reflexivity].
Defined.

(** X24 on the chain: nothing leads out of C. *)
Lemma find_path_bfs_dead_end_run :
  fst (find_path_bfs chain_world "C" "A" 6 15 (fresh [])) = None.
Proof.
  apply (find_path_bfs_dead_end chain_world "C" "A" 6 15 (fresh [])
           (snd (get_page_links_with_cache chain_world "C" (tick (fresh [])))));
    [discriminate | discriminate | simpl; lia | reflexivity].
Defined.

End TargetRuns.
